(** * Stream transects visualizer: CSV loaders, elevation endpoints,
      coordinate scalers, nearest-transect locator and hover handler.

    The development has two parts.  Part I embeds the TypeScript sources
    ([src/app/api/transect-elevations/route.ts], the stream-elevations
    route, [LongitudinalProfile.tsx], [LateralProfile.tsx] and the
    [StreamMap] component) as Rocq functions; Part II states and proves
    their properties.

    Numbers.  A JavaScript [number] is an IEEE-754 double.  Three
    embeddings of numbers are used, and each is named where it is
    introduced:
    - [Binary64]: Rocq's primitive floats, which are binary64 numbers.
      The scalers, the haversine distance and the nearest-transect
      locator are embedded on them as they run: the arithmetic rounds
      and distances can be [NaN].  [Math.sin], [Math.cos] and
      [Math.atan2] are a parameter there, because ECMAScript leaves
      their values to the implementation.
    - [JsNumber.number]: exact rationals extended with [NaN] and the two
      infinities.  Arithmetic is exact (no rounding, one zero); the
      special values follow IEEE.  It is executable.  The values of the
      CSV fields and a second embedding of the scalers use it.
    - real numbers ([R]): a second embedding of the distance and the
      locator ([StreamMap]), in exact arithmetic; this is where the
      haversine formula is compared with the great-circle distance. *)

From Stdlib Require Import Floats ZArith QArith Reals Lra Lia Psatz List Sorted Ascii String Bool.
From stdpp Require Import base option list gmap strings.
Import ListNotations.

(* ================================================================== *)
(** * Part I: the embedding                                            *)
(* ================================================================== *)

(** ** JavaScript numbers, idealised over the rationals *)

Module JsNumber.

Inductive number : Type :=
| NaN
| NegInfinity
| Fin (q : Q)
| Infinity.

Definition isNaN (n : number) : bool :=
  match n with NaN => true | _ => false end.

(** [a === b] on numbers: [NaN] differs from everything, itself included. *)
Definition strict_eq (a b : number) : bool :=
  match a, b with
  | Fin p, Fin q => Qeq_bool p q
  | Infinity, Infinity => true
  | NegInfinity, NegInfinity => true
  | _, _ => false
  end.

Definition is_zero (n : number) : bool :=
  match n with Fin q => Qeq_bool q 0 | _ => false end.

Definition sign_pos (q : Q) : bool := negb (Qle_bool q 0).

Definition neg (a : number) : number :=
  match a with
  | NaN => NaN
  | NegInfinity => Infinity
  | Infinity => NegInfinity
  | Fin q => Fin (Qred (- q))
  end.

Definition add (a b : number) : number :=
  match a, b with
  | NaN, _ | _, NaN => NaN
  | Infinity, NegInfinity | NegInfinity, Infinity => NaN
  | Infinity, _ | _, Infinity => Infinity
  | NegInfinity, _ | _, NegInfinity => NegInfinity
  | Fin p, Fin q => Fin (Qred (p + q))
  end.

Definition sub (a b : number) : number := add a (neg b).

(** An infinity times a finite value: sign by the finite value, [NaN] at 0. *)
Definition scale_inf (positive : bool) (q : Q) : number :=
  if Qeq_bool q 0 then NaN
  else if Bool.eqb positive (sign_pos q) then Infinity else NegInfinity.

Definition mul (a b : number) : number :=
  match a, b with
  | NaN, _ | _, NaN => NaN
  | Infinity, Infinity | NegInfinity, NegInfinity => Infinity
  | Infinity, NegInfinity | NegInfinity, Infinity => NegInfinity
  | Infinity, Fin q | Fin q, Infinity => scale_inf true q
  | NegInfinity, Fin q | Fin q, NegInfinity => scale_inf false q
  | Fin p, Fin q => Fin (Qred (p * q))
  end.

(** Division never raises in JavaScript: [x / 0] is an infinity (the
    model has the single zero [+0]) and [0 / 0] is [NaN]. *)
Definition div (a b : number) : number :=
  match a, b with
  | NaN, _ | _, NaN => NaN
  | (Infinity | NegInfinity), (Infinity | NegInfinity) => NaN
  | Fin _, (Infinity | NegInfinity) => Fin 0
  | Infinity, Fin q => if sign_pos q || Qeq_bool q 0 then Infinity else NegInfinity
  | NegInfinity, Fin q => if sign_pos q || Qeq_bool q 0 then NegInfinity else Infinity
  | Fin p, Fin q =>
      if Qeq_bool q 0 then
        (if Qeq_bool p 0 then NaN else if sign_pos p then Infinity else NegInfinity)
      else Fin (Qred (p / q))
  end.

Definition of_Z (z : Z) : number := Fin (inject_Z z).

End JsNumber.

(** ** JavaScript strings

    A string is a sequence of code units; the model keeps the code units
    below 256 ([Ascii.ascii]).  [isWhiteSpace] is the set that
    [String.prototype.trim] and [parseInt]/[parseFloat] skip (WhiteSpace
    and LineTerminator), restricted to that range. *)

Module JsString.

Open Scope string_scope.

Definition code (c : ascii) : nat := nat_of_ascii c.

Definition LF : ascii := ascii_of_nat 10.
Definition CR : ascii := ascii_of_nat 13.

(** The text of one line feed, to write the examples with. *)
Definition newline : string := String LF EmptyString.

Definition isWhiteSpace (c : ascii) : bool :=
  let n := code c in
  Nat.eqb n 9 || Nat.eqb n 10 || Nat.eqb n 11 || Nat.eqb n 12
  || Nat.eqb n 13 || Nat.eqb n 32 || Nat.eqb n 160.

Fixpoint trimStart (s : string) : string :=
  match s with
  | EmptyString => EmptyString
  | String c s' => if isWhiteSpace c then trimStart s' else s
  end.

Fixpoint trimEnd (s : string) : string :=
  match s with
  | EmptyString => EmptyString
  | String c s' =>
      match trimEnd s' with
      | EmptyString => if isWhiteSpace c then EmptyString else String c EmptyString
      | t => String c t
      end
  end.

(** [s.trim()] *)
Definition trim (s : string) : string := trimEnd (trimStart s).

(** Prepend a code unit to the first piece of a split. *)
Definition cons_first (c : ascii) (pieces : list string) : list string :=
  match pieces with
  | [] => [String c EmptyString]
  | p :: ps => String c p :: ps
  end.

(** [s.split(',')] and the like: split at every occurrence of [sep];
    the result always has at least one piece. *)
Fixpoint split (sep : ascii) (s : string) : list string :=
  match s with
  | EmptyString => [EmptyString]
  | String c s' =>
      if Ascii.eqb c sep then EmptyString :: split sep s'
      else cons_first c (split sep s')
  end.

(** [s.split(/\r?\n/)]: a separator is a line feed, together with the
    carriage return right before it when there is one. *)
Fixpoint splitLines (s : string) : list string :=
  match s with
  | EmptyString => [EmptyString]
  | String c s' =>
      if Ascii.eqb c LF then EmptyString :: splitLines s'
      else
        match s' with
        | String c' s'' =>
            if Ascii.eqb c CR && Ascii.eqb c' LF
            then EmptyString :: splitLines s''
            else cons_first c (splitLines s')
        | EmptyString => cons_first c (splitLines s')
        end
  end.

Definition isDigit (c : ascii) : bool :=
  Nat.leb 48 (code c) && Nat.leb (code c) 57.

Definition digitValue (c : ascii) : Z := Z.of_nat (code c) - 48.

(** The longest prefix of decimal digits, and what follows it. *)
Fixpoint spanDigits (s : string) : string * string :=
  match s with
  | EmptyString => (EmptyString, EmptyString)
  | String c s' =>
      if isDigit c then
        let '(ds, rest) := spanDigits s' in (String c ds, rest)
      else (EmptyString, s)
  end.

(** The value of a digit string read in base 10, continuing from [acc]. *)
Fixpoint digitsValue (acc : Z) (ds : string) : Z :=
  match ds with
  | EmptyString => acc
  | String c ds' => digitsValue (10 * acc + digitValue c)%Z ds'
  end.

(** An optional leading sign: [true] for minus. *)
Definition spanSign (s : string) : bool * string :=
  match s with
  | String c s' =>
      if Ascii.eqb c "-"%char then (true, s')
      else if Ascii.eqb c "+"%char then (false, s')
      else (false, s)
  | EmptyString => (false, s)
  end.

End JsString.

(** ** The global functions [parseInt(s, 10)] and [parseFloat(s)] *)

Module JsGlobal.
Import JsNumber JsString.
Open Scope string_scope.

(** [parseInt(s, 10)]: skip leading white space, read an optional sign,
    then the longest run of decimal digits; [NaN] when that run is
    empty.  What follows the digits is ignored.  The integer is kept
    exact (a double rounds it beyond 2^53). *)
Definition parseInt (s : string) : number :=
  let '(minus, body) := spanSign (trimStart s) in
  let '(ds, _) := spanDigits body in
  match ds with
  | EmptyString => NaN
  | _ => of_Z (if minus then - digitsValue 0 ds else digitsValue 0 ds)
  end.

Definition pow10 (k : Z) : Q :=
  if (0 <=? k)%Z then inject_Z (10 ^ k) else / inject_Z (10 ^ (- k)).

Definition isExponentIndicator (c : ascii) : bool :=
  Ascii.eqb c "e"%char || Ascii.eqb c "E"%char.

(** ExponentPart: [e] or [E], an optional sign and at least one digit;
    0 when the text does not continue with one. *)
Definition spanExponent (s : string) : Z :=
  match s with
  | String c s' =>
      if isExponentIndicator c then
        let '(minus, body) := spanSign s' in
        let '(ds, _) := spanDigits body in
        match ds with
        | EmptyString => 0%Z
        | _ => if minus then (- digitsValue 0 ds)%Z else digitsValue 0 ds
        end
      else 0%Z
  | EmptyString => 0%Z
  end.

(** The unsigned part of a StrDecimalLiteral at the head of [s]:
    [Infinity], digits with an optional fraction, or a fraction alone,
    each with an optional exponent.  [None] when [s] starts with none
    of them. *)
Definition unsignedDecimal (s : string) : option number :=
  if String.prefix "Infinity" s then Some Infinity
  else
    let '(ip, r1) := spanDigits s in
    let '(fp, r2) :=
      match r1 with
      | String c r =>
          if Ascii.eqb c "."%char then
            let '(fd, r') := spanDigits r in
            match ip, fd with
            | EmptyString, EmptyString => (EmptyString, r1)
            | _, _ => (fd, r')
            end
          else (EmptyString, r1)
      | EmptyString => (EmptyString, r1)
      end in
    match ip, fp with
    | EmptyString, EmptyString => None
    | _, _ =>
        let mantissa := digitsValue (digitsValue 0 ip) fp in
        let exponent := (spanExponent r2 - Z.of_nat (String.length fp))%Z in
        Some (Fin (Qred (inject_Z mantissa * pow10 exponent)))
    end.

(** [parseFloat(s)]: skip leading white space, then the longest prefix
    that is a StrDecimalLiteral; [NaN] when there is none.  The value
    is the exact decimal value (a double rounds it). *)
Definition parseFloat (s : string) : number :=
  let '(minus, body) := spanSign (trimStart s) in
  match unsignedDecimal body with
  | None => NaN
  | Some v => if minus then neg v else v
  end.

End JsGlobal.

(** ** Values and objects

    The objects built by the loaders hold strings, numbers and
    [undefined]; an object is the finite map of its own properties. *)

Module JsObject.
Import JsNumber.

Inductive value : Type :=
| VUndefined
| VString (s : string)
| VNumber (n : number).

(** [obj.k]: [undefined] when [k] is not a property. *)
Definition get (obj : gmap string value) (k : string) : value :=
  default VUndefined (obj !! k).

(** [v === t] for a number [t]. *)
Definition value_strict_eq (v : value) (t : number) : bool :=
  match v with
  | VNumber n => strict_eq n t
  | _ => false
  end.

End JsObject.

(** ** What the two CSV loaders share: lines, headers, raw fields *)

Module Csv.
Import JsString.
Open Scope string_scope.

(** [l => l.trim().length > 0] *)
Definition nonBlank (l : string) : bool :=
  negb (Nat.eqb (String.length (trim l)) 0).

(** [csv.split(/\r?\n/).filter(l => l.trim().length > 0)] *)
Definition lines (csv : string) : list string :=
  List.filter nonBlank (splitLines csv).

(** [lines[0].split(',').map(h => h.trim())] *)
Definition headersOf (headerLine : string) : list string :=
  List.map trim (split ","%char headerLine).

(** One step of [headers.forEach((h, i) => { obj[h] = cols[i] !==
    undefined ? cols[i].trim() : ''; })].  Every value stored is a
    string.  Assigning a string to [__proto__] leaves an object
    unchanged. *)
Definition setField (cols : list string) (obj : gmap string string)
    (ih : nat * string) : gmap string string :=
  let v := match cols !! ih.1 with
           | Some c => trim c
           | None => EmptyString
           end in
  if String.eqb ih.2 "__proto__" then obj else <[ih.2 := v]> obj.

(** The object after the [forEach]: header names to trimmed column
    texts. *)
Definition rawFields (headers : list string) (line : string) : gmap string string :=
  let cols := split ","%char line in
  List.fold_left (setField cols) (List.combine (List.seq 0 (List.length headers)) headers) ∅.

(** [ToString(obj.k)] for an object of string fields: a missing
    property reads as [undefined]. *)
Definition readText (obj : gmap string string) (k : string) : string :=
  default "undefined" (obj !! k).

End Csv.

(** ** [src/app/api/transect-elevations/route.ts] *)

Module TransectElevations.
Import JsNumber JsString JsGlobal JsObject Csv.
Open Scope string_scope.

(** [interface Row]: an object with [transect_id], [vertex_index],
    [elevation] and an optional [dam], besides whatever other columns
    the file has. *)
Abbreviation Row := (gmap string value) (only parsing).

(** The body of the [map] callback of [parseCsv].  Each coercion reads
    a key that no earlier assignment has written, so it reads the raw
    text. *)
Definition parseLine (headers : list string) (line : string) : Row :=
  let raw := rawFields headers line in
  let obj : gmap string value := VString <$> raw in
  let obj := <["transect_id" := VNumber (parseInt (readText raw "transect_id"))]> obj in
  let obj := <["vertex_index" := VNumber (parseInt (readText raw "vertex_index"))]> obj in
  let obj := <["elevation" := VNumber (parseFloat (readText raw "elevation"))]> obj in
  match raw !! "dam" with
  | Some text =>
      let v := parseFloat text in
      <["dam" := if isNaN v then VUndefined else VNumber v]> obj
  | None => obj
  end.

Definition parseCsv (csv : string) : list Row :=
  match lines csv with
  | [] => []
  | headerLine :: rest => List.map (parseLine (headersOf headerLine)) rest
  end.

(** The request, as far as [GET] looks at it: the query parameters in
    the order of the URL. *)
Record NextRequest : Type := { searchParams : list (string * string) }.

(** [searchParams.get(name)]: the first value of [name], or [null]. *)
Definition searchParams_get (name : string) (ps : list (string * string)) : option string :=
  snd <$> List.find (fun p => String.eqb (fst p) name) ps.

Inductive NextResponse : Type :=
| Json (data : list Row)                (* status 200, [{ data }] *)
| JsonError (error : string).           (* status 500, [{ error }] *)

(** A string is truthy when it is not empty. *)
Definition truthy (s : string) : bool :=
  negb (String.eqb s EmptyString).

(** [error?.message || 'Failed to read transect elevations'] *)
Definition errorMessage (message : option string) : string :=
  match message with
  | Some m => if truthy m then m else "Failed to read transect elevations"
  | None => "Failed to read transect elevations"
  end.

(** [GET]: [file] is the outcome of [fs.readFile]: the text of the
    file, or the message of the error thrown (if it has one). *)
Definition GET (file : string + option string) (req : NextRequest) : NextResponse :=
  match file with
  | inr message => JsonError (errorMessage message)
  | inl content =>
      let data := parseCsv content in
      let idParam := searchParams_get "transect_id" (searchParams req) in
      let transectId :=
        match idParam with
        | Some s => if truthy s then Some (parseInt s) else None
        | None => None
        end in
      let filtered :=
        match transectId with
        | Some t => List.filter (fun d => value_strict_eq (get d "transect_id") t) data
        | None => data
        end in
      Json filtered
  end.

End TransectElevations.

(** ** The stream-elevations route *)

Module StreamElevations.
Import JsNumber JsString JsGlobal JsObject Csv.
Open Scope string_scope.

(** [type ElevationRow] *)
Abbreviation ElevationRow := (gmap string value) (only parsing).

(** [if (typeof obj[k] === 'string') obj[k] = parse(obj[k])]: the
    fields are strings exactly when they are there. *)
Definition coerce (parse : string -> number) (k : string)
    (raw : gmap string string) (obj : gmap string value) : gmap string value :=
  match raw !! k with
  | Some text => <[k := VNumber (parse text)]> obj
  | None => obj
  end.

Definition parseLine (headers : list string) (line : string) : ElevationRow :=
  let raw := rawFields headers line in
  let obj : gmap string value := VString <$> raw in
  let obj := coerce parseInt "vertex_id" raw obj in
  let obj := coerce parseFloat "elevation_normalized_m" raw obj in
  let obj := coerce parseFloat "elevation" raw obj in
  obj.

Definition parseCsv (csv : string) : list ElevationRow :=
  match lines csv with
  | [] => []
  | headerLine :: rest => List.map (parseLine (headersOf headerLine)) rest
  end.

Inductive NextResponse : Type :=
| Json (data : list ElevationRow)
| JsonError (error : string).

Definition errorMessage (message : option string) : string :=
  match message with
  | Some m => if negb (String.eqb m EmptyString) then m else "Failed to read stream elevations"
  | None => "Failed to read stream elevations"
  end.

Definition GET (file : string + option string) : NextResponse :=
  match file with
  | inr message => JsonError (errorMessage message)
  | inl content => Json (parseCsv content)
  end.

End StreamElevations.

(** ** The coordinate scalers of the two chart renderers *)

(** A division that reports a zero denominator instead of dividing.  It
    is used by the instrumented copies of the scalers only. *)
Definition checked_div (a b : JsNumber.number) : option JsNumber.number :=
  if JsNumber.is_zero b then None else Some (JsNumber.div a b).

Record Margin : Type :=
  { top : JsNumber.number;
    right : JsNumber.number;
    bottom : JsNumber.number;
    left : JsNumber.number }.

(** *** [LongitudinalProfile.tsx] *)

Module LongitudinalProfile.
Import JsNumber.

Definition width : number := of_Z 1000.
Definition height : number := of_Z 200.
Definition margin : Margin :=
  {| top := of_Z 24; right := of_Z 12; bottom := of_Z 26; left := of_Z 52 |}.
Definition innerW : number := sub (sub width (left margin)) (right margin).
Definition innerH : number := sub (sub height (top margin)) (bottom margin).

Definition minY : number := Fin (-15).
Definition maxY : number := Fin 7.5.

Section Scales.
(** [minX] and [maxX] come from the fetched rows ([useMemo]). *)
Variables minX maxX : number.

Definition xScale (x : number) : number :=
  if strict_eq maxX minX then add (left margin) (div innerW (of_Z 2))
  else add (left margin) (mul (div (sub x minX) (sub maxX minX)) innerW).

Definition yScale (y : number) : number :=
  if strict_eq maxY minY then add (top margin) (div innerH (of_Z 2))
  else sub (add (top margin) innerH)
           (mul (div (sub y minY) (sub maxY minY)) innerH).

(** The same two functions with every [/] replaced by [checked_div]. *)
Definition xScale_checked (x : number) : option number :=
  if strict_eq maxX minX then
    q ← checked_div innerW (of_Z 2); Some (add (left margin) q)
  else
    q ← checked_div (sub x minX) (sub maxX minX);
    Some (add (left margin) (mul q innerW)).

Definition yScale_checked (y : number) : option number :=
  if strict_eq maxY minY then
    q ← checked_div innerH (of_Z 2); Some (add (top margin) q)
  else
    q ← checked_div (sub y minY) (sub maxY minY);
    Some (sub (add (top margin) innerH) (mul q innerH)).
End Scales.

End LongitudinalProfile.

(** *** [LateralProfile.tsx] *)

Module LateralProfile.
Import JsNumber.

Definition width : number := of_Z 600.
Definition height : number := of_Z 300.
Definition margin : Margin :=
  {| top := of_Z 12; right := of_Z 12; bottom := of_Z 28; left := of_Z 52 |}.
Definition innerW : number := sub (sub width (left margin)) (right margin).
Definition innerH : number := sub (sub height (top margin)) (bottom margin).

Definition minX : number := of_Z 0.
Definition maxX : number := of_Z 40.
Definition minY : number := of_Z (-20).
Definition maxY : number := of_Z 20.

Definition xScale (xMeters : number) : number :=
  add (left margin) (mul (div (sub xMeters minX) (sub maxX minX)) innerW).

Definition yScale (y : number) : number :=
  sub (add (top margin) innerH) (mul (div (sub y minY) (sub maxY minY)) innerH).

Definition xScale_checked (xMeters : number) : option number :=
  q ← checked_div (sub xMeters minX) (sub maxX minX);
  Some (add (left margin) (mul q innerW)).

Definition yScale_checked (y : number) : option number :=
  q ← checked_div (sub y minY) (sub maxY minY);
  Some (sub (add (top margin) innerH) (mul q innerH)).

End LateralProfile.

(** ** The scalers and the locator on binary64 floating-point numbers

    The same functions on Rocq's primitive floats, which are IEEE-754
    binary64 numbers like JavaScript's: [=?] is [===], [<?] is [<],
    and the arithmetic rounds as the code's does. *)

Module Binary64.
Open Scope float_scope.

Record Margin : Type :=
  { top : float; right : float; bottom : float; left : float }.

Module LongitudinalProfile.

Definition width : float := 1000.
Definition height : float := 200.
Definition margin : Margin := {| top := 24; right := 12; bottom := 26; left := 52 |}.
Definition innerW : float := width - left margin - right margin.
Definition innerH : float := height - top margin - bottom margin.

Definition minY : float := -15.
Definition maxY : float := 7.5.

Definition xScale (minX maxX x : float) : float :=
  if maxX =? minX then left margin + innerW / 2
  else left margin + ((x - minX) / (maxX - minX)) * innerW.

Definition yScale (y : float) : float :=
  if maxY =? minY then top margin + innerH / 2
  else top margin + innerH - ((y - minY) / (maxY - minY)) * innerH.

End LongitudinalProfile.

Module LateralProfile.

Definition width : float := 600.
Definition height : float := 300.
Definition margin : Margin := {| top := 12; right := 12; bottom := 28; left := 52 |}.
Definition innerW : float := width - left margin - right margin.
Definition innerH : float := height - top margin - bottom margin.

Definition minX : float := 0.
Definition maxX : float := 40.
Definition minY : float := -20.
Definition maxY : float := 20.

Definition xScale (xMeters : float) : float :=
  left margin + ((xMeters - minX) / (maxX - minX)) * innerW.

Definition yScale (y : float) : float :=
  top margin + innerH - ((y - minY) / (maxY - minY)) * innerH.

End LateralProfile.

(** *** The [StreamMap] component on binary64 numbers

    [Math.sin], [Math.cos] and [Math.atan2] are functions of the host:
    ECMAScript fixes their results on the arguments listed below and
    leaves the other results to the implementation.  A [Math] is any
    such implementation.  [Math.sqrt] is the IEEE square root and
    [Math.PI] the double nearest to π. *)

Module StreamMap.

Record Math : Type :=
  { sin : float → float;
    cos : float → float;
    atan2 : float → float → float;
    sin_NaN : sin nan = nan;
    sin_Infinity : sin infinity = nan ∧ sin neg_infinity = nan;
    sin_zero : sin 0 = 0;
    cos_NaN : cos nan = nan;
    cos_Infinity : cos infinity = nan ∧ cos neg_infinity = nan;
    cos_zero : cos 0 = 1;
    atan2_NaN : ∀ v, atan2 nan v = nan ∧ atan2 v nan = nan;
    atan2_zero : ∀ x, (0 <? x) = true → atan2 0 x = 0 }.

Definition PI : float := 0x1.921fb54442d18p+1.

Record Properties : Type :=
  { transect_id : float;
    vertex_id : float;
    stream_vertex_lat : float;
    stream_vertex_lon : float;
    transect_length_m : float;
    spacing_m : float;
    num_vertices : float }.

(** A LineString: its positions, each [[lon, lat]]. *)
Record Geometry : Type := { coordinates : list (float * float) }.

Record TransectFeature : Type :=
  { properties : Properties; geometry : Geometry }.

Record TransectData : Type := { features : list TransectFeature }.

Section Locator.
Variable M : Math.

(** Haversine distance in meters *)
Definition calculateDistance (lat1 lon1 lat2 lon2 : float) : float :=
  let R := 6371e3 in
  let φ1 := lat1 * PI / 180 in
  let φ2 := lat2 * PI / 180 in
  let Δφ := (lat2 - lat1) * PI / 180 in
  let Δλ := (lon2 - lon1) * PI / 180 in
  let a := sin M (Δφ / 2) * sin M (Δφ / 2) +
           cos M φ1 * cos M φ2 *
           sin M (Δλ / 2) * sin M (Δλ / 2) in
  let c := 2 * atan2 M (PrimFloat.sqrt a) (PrimFloat.sqrt (1 - a)) in
  R * c.

(** The inner loop; [localMin] starts at [Infinity], and [d < localMin]
    is false when [d] is [NaN]. *)
Definition localMinOf (mouseLat mouseLng : float) (coords : list (float * float)) : float :=
  List.fold_left
    (fun localMin coord =>
       let '(lon, lat) := coord in
       let d := calculateDistance mouseLat mouseLng lat lon in
       if d <? localMin then d else localMin)
    coords infinity.

(** One round of the outer loop on the pair [(closest, best)]. *)
Definition visit (mouseLat mouseLng : float)
    (acc : option TransectFeature * float) (feature : TransectFeature)
    : option TransectFeature * float :=
  let localMin := localMinOf mouseLat mouseLng (coordinates (geometry feature)) in
  if localMin <? acc.2 then (Some feature, localMin) else acc.

(** Closest transect by min distance to any vertex of the LineString.
    [transectData] is [None] until the GeoJSON file is loaded. *)
Definition findClosestTransect (transectData : option TransectData)
    (mouseLat mouseLng : float) : option TransectFeature :=
  match transectData with
  | None => None
  | Some data =>
      (List.fold_left (visit mouseLat mouseLng) (features data) (None, infinity)).1
  end.

End Locator.
End StreamMap.

End Binary64.

(** ** The [StreamMap] component: haversine distance, nearest-transect
       locator and mouse-move handler

    Coordinates and distances are real numbers here: the mouse position
    and the GeoJSON coordinates are finite, and the arithmetic is taken
    exact ([Binary64.StreamMap] above has the distance and the locator
    as they run).  The identifiers of a feature stay
    [JsNumber.number]s; they are only compared. *)

Module StreamMap.
Import JsNumber.
Open Scope R_scope.

Record Properties : Type :=
  { transect_id : number;
    vertex_id : number;
    stream_vertex_lat : R;
    stream_vertex_lon : R;
    transect_length_m : R;
    spacing_m : R;
    num_vertices : number }.

(** A LineString: its positions, each [[lon, lat]]. *)
Record Geometry : Type := { coordinates : list (R * R) }.

Record TransectFeature : Type :=
  { properties : Properties; geometry : Geometry }.

Record TransectData : Type := { features : list TransectFeature }.

(** [Math.atan2(y, x)] *)
Definition atan2 (y x : R) : R :=
  if Rlt_dec 0 x then atan (y / x)
  else if Rlt_dec x 0 then
    (if Rle_dec 0 y then atan (y / x) + PI else atan (y / x) - PI)
  else if Rlt_dec 0 y then PI / 2
  else if Rlt_dec y 0 then - (PI / 2)
  else 0.

(** Haversine distance in meters *)
Definition calculateDistance (lat1 lon1 lat2 lon2 : R) : R :=
  let R_ := 6371e3 in
  let φ1 := lat1 * PI / 180 in
  let φ2 := lat2 * PI / 180 in
  let Δφ := (lat2 - lat1) * PI / 180 in
  let Δλ := (lon2 - lon1) * PI / 180 in
  let a := sin (Δφ / 2) * sin (Δφ / 2) +
           cos φ1 * cos φ2 *
           sin (Δλ / 2) * sin (Δλ / 2) in
  let c := 2 * atan2 (sqrt a) (sqrt (1 - a)) in
  R_ * c.

(** What [best] and [localMin] hold: [Infinity] or a distance. *)
Inductive bound : Type :=
| Unbounded               (* [Infinity] *)
| Dist (d : R).

(** [a < b] on such values *)
Definition below (a b : bound) : bool :=
  match a, b with
  | Unbounded, _ => false
  | Dist _, Unbounded => true
  | Dist x, Dist y => if Rlt_dec x y then true else false
  end.

(** The inner loop: the least distance from the mouse to a position
    of the line. *)
Definition localMinOf (mouseLat mouseLng : R) (coords : list (R * R)) : bound :=
  List.fold_left
    (fun localMin coord =>
       let '(lon, lat) := coord in
       let d := calculateDistance mouseLat mouseLng lat lon in
       if below (Dist d) localMin then Dist d else localMin)
    coords Unbounded.

(** One round of the outer loop on the pair [(closest, best)]. *)
Definition visit (mouseLat mouseLng : R)
    (acc : option TransectFeature * bound) (feature : TransectFeature)
    : option TransectFeature * bound :=
  let localMin := localMinOf mouseLat mouseLng (coordinates (geometry feature)) in
  if below localMin acc.2 then (Some feature, localMin) else acc.

(** Closest transect by min distance to any vertex of the LineString.
    [transectData] is [None] until the GeoJSON file is loaded. *)
Definition findClosestTransect (transectData : option TransectData)
    (mouseLat mouseLng : R) : option TransectFeature :=
  match transectData with
  | None => None
  | Some data =>
      (List.fold_left (visit mouseLat mouseLng) (features data) (None, Unbounded)).1
  end.

(** [hoveredTransect?.properties.transect_id]: [None] is [undefined]. *)
Definition idOf (t : option TransectFeature) : option number :=
  (fun f => transect_id (properties f)) <$> t.

(** [a !== b] on identifiers *)
Definition id_differs (a b : option number) : bool :=
  match a, b with
  | None, None => false
  | Some x, Some y => negb (strict_eq x y)
  | _, _ => true
  end.

Record LatLng : Type := { lat : R; lng : R }.

(** What a run of the handler leaves behind: the hovered transect and
    the calls of [onActiveVertexChange], each with its argument
    ([None] is [null]). *)
Record Outcome : Type :=
  { hovered : option TransectFeature;
    calls : list (option number) }.

(** [handleMapMouseMove].  [hoveredTransect] is the state of the
    component, [onActiveVertexChange] tells whether the optional
    callback was given. *)
Definition handleMapMouseMove (transectData : option TransectData)
    (onActiveVertexChange : bool) (hoveredTransect : option TransectFeature)
    (e : LatLng) : Outcome :=
  let closest := findClosestTransect transectData (lat e) (lng e) in
  let currentHoveredId := idOf hoveredTransect in
  let newHoveredId := idOf closest in
  if id_differs currentHoveredId newHoveredId then
    {| hovered := closest;
       calls := if onActiveVertexChange
                then [(fun f => vertex_id (properties f)) <$> closest]
                else [] |}
  else {| hovered := hoveredTransect; calls := [] |}.

End StreamMap.

(** ** Notions the properties are stated with

    These definitions follow the wording of the specification, not the
    code; Part II compares them with the functions above. *)

Module Spec.
Import JsNumber JsString Csv.
Open Scope string_scope.

(** *** CSV: header and data lines *)

Definition blank (l : string) : Prop := trim l = EmptyString.

(** The header is the first line that is not blank. *)
Fixpoint headerLine (ls : list string) : option string :=
  match ls with
  | [] => None
  | l :: rest => if nonBlank l then Some l else headerLine rest
  end.

(** The data lines are the lines after the header whose trimmed
    content is not empty, in the order of the input. *)
Fixpoint dataLines (ls : list string) : list string :=
  match ls with
  | [] => []
  | l :: rest => if nonBlank l then List.filter nonBlank rest else dataLines rest
  end.

(** *** CSV: numeric and non-numeric text *)

Fixpoint allWhiteSpace (s : string) : Prop :=
  match s with
  | EmptyString => True
  | String c s' => isWhiteSpace c = true ∧ allWhiteSpace s'
  end.

Definition isSign (s : string) : Prop := s = "" ∨ s = "+" ∨ s = "-".

(** A code unit that is neither white space nor a sign. *)
Definition visible (c : ascii) : Prop :=
  isWhiteSpace c = false ∧ Ascii.eqb c "-" = false ∧ Ascii.eqb c "+" = false.

Definition startsWithDigit (s : string) : Prop :=
  ∃ d rest, s = String d rest ∧ isDigit d = true.

(** The start of an unsigned decimal literal: a digit, a point
    followed by a digit, or the word [Infinity]. *)
Definition startsDecimal (s : string) : Prop :=
  startsWithDigit s
  ∨ (∃ rest, s = String "."%char rest ∧ startsWithDigit rest)
  ∨ (∃ rest, s = "Infinity" ++ rest).

(** White space, an optional sign, then a text that satisfies [body]. *)
Definition signedText (body : string → Prop) (s : string) : Prop :=
  ∃ ws sign rest,
    s = ws ++ sign ++ rest ∧ allWhiteSpace ws ∧ isSign sign ∧ body rest.

(** Text that starts with an integer numeral, and text that starts
    with a decimal numeral.  Text that does neither is non-numeric for
    an integer field, respectively for a decimal field. *)
Definition integerText : string → Prop := signedText startsWithDigit.
Definition decimalText : string → Prop := signedText startsDecimal.

(** *** Scaler: the pixel range and its midpoint *)

Definition midpoint (lo hi : number) : number := div (add lo hi) (of_Z 2).

(** *** Locator: great-circle distance *)

Open Scope R_scope.

Definition radians (degrees : R) : R := degrees * PI / 180.

(** The haversine formula on a sphere of radius [radius], for two
    points given in degrees. *)
Definition haversine (radius lat1 lon1 lat2 lon2 : R) : R :=
  let φ1 := radians lat1 in
  let φ2 := radians lat2 in
  let Δφ := radians (lat2 - lat1) in
  let Δλ := radians (lon2 - lon1) in
  let a := (sin (Δφ / 2))² + cos φ1 * cos φ2 * (sin (Δλ / 2))² in
  let c := 2 * StreamMap.atan2 (sqrt a) (sqrt (1 - a)) in
  radius * c.

(** The angle at the centre of the sphere between two points given by
    latitude and longitude in radians (spherical law of cosines). *)
Definition centralAngle (φ1 λ1 φ2 λ2 : R) : R :=
  acos (sin φ1 * sin φ2 + cos φ1 * cos φ2 * cos (λ2 - λ1)).

(** The distances from the mouse to the positions of a transect. *)
Definition vertexDistances (mouseLat mouseLng : R) (f : StreamMap.TransectFeature) : list R :=
  List.map (fun coord : R * R => StreamMap.calculateDistance mouseLat mouseLng coord.2 coord.1)
           (StreamMap.coordinates (StreamMap.geometry f)).

End Spec.

(** ** Data for the examples *)

Module Examples.
Import JsNumber StreamMap.
Open Scope R_scope.

Definition props (id vertex : Z) : Properties :=
  {| transect_id := of_Z id;
     vertex_id := of_Z vertex;
     stream_vertex_lat := 20.94;
     stream_vertex_lon := 71.19;
     transect_length_m := 40;
     spacing_m := 2;
     num_vertices := of_Z 21 |}.

(** Two transects that meet in the position [[71.19, 20.94]]. *)
Definition transect1 : TransectFeature :=
  {| properties := props 1 10;
     geometry := {| coordinates := [(71.19, 20.94); (71.20, 20.94)] |} |}.
Definition transect2 : TransectFeature :=
  {| properties := props 2 20;
     geometry := {| coordinates := [(71.19, 20.94); (71.19, 20.95)] |} |}.
Definition crossing : TransectData := {| features := [transect1; transect2] |}.

(** A feature whose line has no position. *)
Definition bare : TransectFeature :=
  {| properties := props 3 30; geometry := {| coordinates := [] |} |}.
Definition bareData : TransectData := {| features := [bare; bare] |}.
Definition noFeatures : TransectData := {| features := [] |}.
End Examples.

(** ** Notions for the binary64 locator *)

Module Spec64.
Import Binary64.StreamMap.
Open Scope float_scope.

(** The term [a] of the haversine formula:
    [sin²(Δφ/2) + cos φ1 · cos φ2 · sin²(Δλ/2)], the angles in radians. *)
Definition haversineTerm (M : Math) (lat1 lon1 lat2 lon2 : float) : float :=
  let φ1 := lat1 * PI / 180 in
  let φ2 := lat2 * PI / 180 in
  let Δφ := (lat2 - lat1) * PI / 180 in
  let Δλ := (lon2 - lon1) * PI / 180 in
  sin M (Δφ / 2) * sin M (Δφ / 2) +
  cos M φ1 * cos M φ2 *
  sin M (Δλ / 2) * sin M (Δλ / 2).

(** The distances from the mouse to the positions of a transect. *)
Definition vertexDistances (M : Math) (mouseLat mouseLng : float) (f : TransectFeature)
    : list float :=
  List.map (fun coord : float * float => calculateDistance M mouseLat mouseLng coord.2 coord.1)
           (coordinates (geometry f)).

(** The smaller of two numbers, as [if (d < localMin) localMin = d]
    leaves it. *)
Definition keepLess (localMin d : float) : float := if d <? localMin then d else localMin.

(** What the inner loop leaves in [localMin] for a transect. *)
Definition transectMin (M : Math) (mouseLat mouseLng : float) (f : TransectFeature) : float :=
  localMinOf M mouseLat mouseLng (coordinates (geometry f)).

(** Zeros, subnormal and normal numbers, on the specification of a
    float. *)
Definition SFis_finite (s : spec_float) : bool :=
  match s with
  | S754_zero _ | S754_finite _ _ _ => true
  | _ => false
  end.

End Spec64.

(** ** Data for the examples on binary64 numbers *)

Module Examples64.
Import Binary64.StreamMap.
Open Scope float_scope.

(** A [Math] that sums power series.  It is accurate for angles between
    -π/2 and π/2 and for small quotients [y / x] only; it shows that
    the clauses of [Math] can be met, and it lets the locator run. *)
Definition series_sin (x : float) : float :=
  if is_finite x then
    if is_zero x then x
    else
      let q := x * x in
      x * (1 - q / 6 * (1 - q / 20 * (1 - q / 42 * (1 - q / 72 * (1 - q / 110 *
          (1 - q / 156 * (1 - q / 210 * (1 - q / 272 * (1 - q / 342 * (1 - q / 420))))))))))
  else nan.

Definition series_cos (x : float) : float :=
  if is_finite x then
    let q := x * x in
    1 - q / 2 * (1 - q / 12 * (1 - q / 30 * (1 - q / 56 * (1 - q / 90 *
        (1 - q / 132 * (1 - q / 182 * (1 - q / 240 * (1 - q / 306 * (1 - q / 380)))))))))
  else nan.

(** [atan u] for a small [u], and the halving of the angle:
    [atan t = 2 * atan (t / (1 + sqrt (1 + t²)))]. *)
Definition series_atan_small (u : float) : float :=
  let q := u * u in
  u * (1 - q / 3 * (1 - 3 * q / 5 * (1 - 5 * q / 7 * (1 - 7 * q / 9 * (1 - 9 * q / 11 *
      (1 - 11 * q / 13 * (1 - 13 * q / 15 * (1 - 15 * q / 17 * (1 - 17 * q / 19))))))))).

Definition halve (t : float) : float := t / (1 + PrimFloat.sqrt (1 + t * t)).

Definition series_atan (t : float) : float :=
  if 1 <? abs t then
    (if 0 <? t then PI / 2 else - (PI / 2)) - 4 * series_atan_small (halve (halve (1 / t)))
  else 4 * series_atan_small (halve (halve t)).

Definition series_atan2 (y x : float) : float :=
  if 0 <? x then
    if is_nan y then nan else if is_zero y then y else series_atan (y / x)
  else if is_nan x then nan
  else if is_nan y then nan
  else if x <? 0 then (if y <? 0 then series_atan (y / x) - PI else series_atan (y / x) + PI)
  else if 0 <? y then PI / 2
  else if y <? 0 then - (PI / 2)
  else y.

Definition seriesMath : Math.
Proof.
  refine {| sin := series_sin; cos := series_cos; atan2 := series_atan2 |};
    try reflexivity; try (split; reflexivity).
  - intros v. split.
    + unfold series_atan2. destruct (0 <? v); [reflexivity|]. destruct (is_nan v); reflexivity.
    + reflexivity.
  - intros x H. unfold series_atan2. rewrite H. reflexivity.
Defined.

Definition props (id vertex : float) : Properties :=
  {| transect_id := id;
     vertex_id := vertex;
     stream_vertex_lat := 20.5;
     stream_vertex_lon := 71.25;
     transect_length_m := 40;
     spacing_m := 2;
     num_vertices := 21 |}.

(** Two transects near the centre of the map. *)
Definition north : TransectFeature :=
  {| properties := props 1 10;
     geometry := {| coordinates := [(71.25, 20.75); (71.5, 20.75)] |} |}.
Definition south : TransectFeature :=
  {| properties := props 2 20;
     geometry := {| coordinates := [(71.25, 20.5); (71.5, 20.5)] |} |}.

(** A transect with one position, at latitude -8 and longitude 180:
    the point opposite to latitude 8, longitude 0. *)
Definition opposite : TransectFeature :=
  {| properties := props 3 30; geometry := {| coordinates := [(180, -8)] |} |}.

(** The same at latitude -72: the point opposite to latitude 72,
    longitude 0. *)
Definition opposite72 : TransectFeature :=
  {| properties := props 5 50; geometry := {| coordinates := [(180, -72)] |} |}.

(** A transect with a position whose longitude, [2^1023] degrees, is
    too large to be converted to radians. *)
Definition farOut : TransectFeature :=
  {| properties := props 4 40; geometry := {| coordinates := [(0x1p+1023, 0)] |} |}.

End Examples64.

(** ** Comparison of numbers *)

Module JsCompare.
Import JsNumber.



End JsCompare.

(** ** [LongitudinalProfile.tsx]: the rows and the extent of the x axis *)

Module LongitudinalData.
Import JsNumber JsCompare.

(** [type ElevationRow]; [None] is a field that is not there. *)
Record ElevationRow : Type :=
  { vertex_id : number;
    elevation_normalized_m : option number;
    elevation : option number }.




End LongitudinalData.

(** ** [Array.prototype.sort]

    The sort is stable.  With a comparator that orders the elements
    consistently its result is the sorted arrangement that keeps equal
    elements in their order, which is what insertion computes. *)

Module JsArray.
Import JsNumber JsCompare.

Section Sort.
Context {A : Type}.
Variable compare : A → A → number.



End Sort.

End JsArray.

(** ** [LongitudinalProfile.tsx]: the area path

    The path is kept as the list of its commands; the code writes each
    command as text ([M x y], [L x y], [Z]) and joins them with
    spaces. *)

Module LongitudinalPath.
Import JsNumber JsCompare JsArray LongitudinalData.




Section Path.
Variables minX maxX : number.
Variable usingNormalized : bool.


End Path.


End LongitudinalPath.

(** ** Texts made of lines *)

Module CsvText.
Import JsString.
Open Scope string_scope.

(** A text without line feed or carriage return. *)
Fixpoint lineText (l : string) : bool :=
  match l with
  | EmptyString => true
  | String c l' => negb (Ascii.eqb c LF) && negb (Ascii.eqb c CR) && lineText l'
  end.

(** Lines written one after the other, with [sep] between them. *)
Fixpoint joinLines (sep : string) (first : string) (rest : list string) : string :=
  match rest with
  | [] => first
  | l :: rest' => first ++ sep ++ joinLines sep l rest'
  end.

Definition unixEnd : string := String LF EmptyString.
Definition windowsEnd : string := String CR (String LF EmptyString).

(** The two line endings that [/\r?\n/] matches. *)
Inductive ending : Type := Unix | Windows.

Definition endingText (e : ending) : string :=
  match e with Unix => unixEnd | Windows => windowsEnd end.

(** The text that holds the line [first] and then, each after its line
    ending, the lines of [rest]. *)
Fixpoint textOf (first : string) (rest : list (ending * string)) : string :=
  match rest with
  | [] => first
  | (e, l) :: rest' => first ++ endingText e ++ textOf l rest'
  end.

(** A text without line feed. *)
Fixpoint noLF (l : string) : bool :=
  match l with
  | EmptyString => true
  | String c l' => negb (Ascii.eqb c LF) && noLF l'
  end.

Fixpoint endsWithCR (l : string) : bool :=
  match l with
  | EmptyString => false
  | String c EmptyString => Ascii.eqb c CR
  | String _ l' => endsWithCR l'
  end.

(** The lines of a text hold no line feed, and a carriage return right
    before a line feed belongs to the line ending, not to the line. *)
Fixpoint wellSplit (first : string) (rest : list (ending * string)) : Prop :=
  noLF first = true
  ∧ match rest with
    | [] => True
    | (e, l) :: rest' => (e = Unix → endsWithCR first = false) ∧ wellSplit l rest'
    end.

End CsvText.

(** ** More data for the examples *)

Module MoreExamples.
Import StreamMap.

(** The same transect with its positions listed from the other end. *)
Definition reversed (f : TransectFeature) : TransectFeature :=
  {| properties := properties f;
     geometry := {| coordinates := List.rev (coordinates (geometry f)) |} |}.

End MoreExamples.

(* ================================================================== *)
(** * Part II: properties                                              *)
(* ================================================================== *)

(** ** The CSV loaders *)

Module CsvFacts.
Import JsNumber JsString JsGlobal JsObject Csv Spec.
Open Scope string_scope.

Lemma nonBlank_false_iff (l : string) : nonBlank l = false ↔ blank l.
Proof.
  unfold nonBlank, blank.
  destruct (trim l) as [|c t]; simpl; split; intros H; try reflexivity; discriminate.
Qed.

Lemma nonBlank_true_iff (l : string) : nonBlank l = true ↔ ¬ blank l.
Proof.
  rewrite <- nonBlank_false_iff. destruct (nonBlank l); split; intros; congruence.
Qed.

Lemma headerLine_filter (ls : list string) :
  headerLine ls = List.hd_error (List.filter nonBlank ls).
Proof.
  induction ls as [|l rest IH]; simpl; [reflexivity|].
  destruct (nonBlank l); simpl; [reflexivity | exact IH].
Qed.

Lemma dataLines_filter (ls : list string) :
  dataLines ls = List.tl (List.filter nonBlank ls).
Proof.
  induction ls as [|l rest IH]; simpl; [reflexivity|].
  destruct (nonBlank l); simpl; [reflexivity | exact IH].
Qed.

Lemma headerLine_None_iff (ls : list string) :
  headerLine ls = None ↔ Forall blank ls.
Proof.
  induction ls as [|l rest IH]; simpl.
  - split; [constructor | reflexivity].
  - destruct (nonBlank l) eqn:E.
    + split; [discriminate|]. intros H. inversion H as [|? ? Hb _]; subst.
      apply nonBlank_false_iff in Hb. congruence.
    + rewrite IH. apply nonBlank_false_iff in E. split.
      * intros H. constructor; assumption.
      * intros H. inversion H; assumption.
Qed.

Lemma filter_nonBlank_sublist (ls : list string) :
  sublist (List.filter nonBlank ls) ls.
Proof.
  induction ls as [|l rest IH]; simpl; [constructor|].
  destruct (nonBlank l); [apply sublist_skip | apply sublist_cons]; exact IH.
Qed.

Lemma dataLines_sublist (ls : list string) : sublist (dataLines ls) ls.
Proof.
  induction ls as [|l rest IH]; simpl; [constructor|].
  destruct (nonBlank l).
  - apply sublist_cons, filter_nonBlank_sublist.
  - apply sublist_cons, IH.
Qed.

Lemma dataLines_nonBlank (ls : list string) :
  Forall (fun l => ¬ blank l) (dataLines ls).
Proof.
  induction ls as [|l rest IH]; simpl; [constructor|].
  destruct (nonBlank l); [|exact IH].
  apply Forall_forall. intros x Hx. apply list_elem_of_In, List.filter_In in Hx.
  apply nonBlank_true_iff, Hx.
Qed.

Lemma lines_split (csv : string) :
  lines csv =
    match headerLine (splitLines csv) with
    | Some h => h :: dataLines (splitLines csv)
    | None => []
    end.
Proof.
  unfold lines. rewrite headerLine_filter, dataLines_filter.
  destruct (List.filter nonBlank (splitLines csv)); reflexivity.
Qed.

(** The records are the images of the data lines under the per-line
    parser, where the lines are those of the loader's own split. *)
Lemma parseCsv_data_lines (csv : string) :
  let ls := splitLines csv in
  match headerLine ls with
  | Some h =>
      TransectElevations.parseCsv csv
        = List.map (TransectElevations.parseLine (headersOf h)) (dataLines ls)
      ∧ StreamElevations.parseCsv csv
        = List.map (StreamElevations.parseLine (headersOf h)) (dataLines ls)
  | None =>
      Forall blank ls
      ∧ TransectElevations.parseCsv csv = []
      ∧ StreamElevations.parseCsv csv = []
  end
  ∧ List.length (TransectElevations.parseCsv csv) = List.length (dataLines ls)
  ∧ List.length (StreamElevations.parseCsv csv) = List.length (dataLines ls)
  ∧ sublist (dataLines ls) ls
  ∧ Forall (fun l => ¬ blank l) (dataLines ls)
  ∧ (Forall blank ls →
     TransectElevations.parseCsv csv = [] ∧ StreamElevations.parseCsv csv = [])
  ∧ TransectElevations.parseCsv "" = []
  ∧ StreamElevations.parseCsv "" = [].
Proof.
  intros ls. subst ls.
  unfold TransectElevations.parseCsv, StreamElevations.parseCsv.
  rewrite !lines_split.
  destruct (headerLine (splitLines csv)) as [h|] eqn:Hh.
  - repeat split; try reflexivity.
    + rewrite List.length_map. reflexivity.
    + rewrite List.length_map. reflexivity.
    + apply dataLines_sublist.
    + apply dataLines_nonBlank.
    + apply headerLine_None_iff in H. congruence.
    + apply headerLine_None_iff in H. congruence.
  - apply headerLine_None_iff in Hh as Hb.
    assert (Hd : dataLines (splitLines csv) = []).
    { rewrite dataLines_filter. rewrite headerLine_filter in Hh.
      destruct (List.filter nonBlank (splitLines csv)); [reflexivity | discriminate]. }
    rewrite Hd. repeat split; try reflexivity; try assumption;
      [apply sublist_nil_l | constructor].
Qed.

(** The scenario of the specification: two data lines give two rows,
    both with [transect_id] 1. *)
Example parseCsv_scenario :
  List.map (fun row => (get row "transect_id", get row "vertex_index", get row "elevation"))
    (TransectElevations.parseCsv
       ("transect_id,vertex_index,elevation" ++ newline ++ "1,0,10.5" ++ newline ++ "1,1,9.0"))
  = [(VNumber (Fin 1), VNumber (Fin 0), VNumber (Fin (21 # 2)));
     (VNumber (Fin 1), VNumber (Fin 1), VNumber (Fin 9))].
Proof. vm_compute. reflexivity. Qed.

(** Blank lines and carriage returns do not count. *)
Example parseCsv_blank_lines :
  List.length
    (StreamElevations.parseCsv
       (newline ++ "vertex_id,elevation" ++ String CR newline ++ "  " ++ newline
        ++ "7,3.5" ++ String CR newline ++ newline))
  = 1%nat.
Proof. vm_compute. reflexivity. Qed.

End CsvFacts.

(** ** [parseInt] and [parseFloat]: which texts give [NaN] *)

Module ParseFacts.
Import JsNumber JsString JsGlobal Spec.
Open Scope string_scope.

Ltac by_cases_on_ascii c :=
  destruct c as [[] [] [] [] [] [] [] []]; vm_compute; intuition congruence.

Lemma digit_visible (c : ascii) : isDigit c = true → visible c.
Proof. unfold visible. by_cases_on_ascii c. Qed.

Lemma digit_not_I (c : ascii) : isDigit c = true → c ≠ "I"%char.
Proof. by_cases_on_ascii c. Qed.

Lemma append_String (c : ascii) (a b : string) : String c a ++ b = String c (a ++ b).
Proof. reflexivity. Qed.

Lemma append_empty (b : string) : "" ++ b = b.
Proof. reflexivity. Qed.

Lemma trimStart_decompose (s : string) :
  ∃ ws, s = ws ++ trimStart s ∧ allWhiteSpace ws.
Proof.
  induction s as [|c s IH]; simpl.
  - exists "". split; [reflexivity | exact I].
  - destruct (isWhiteSpace c) eqn:E.
    + destruct IH as (ws & Hs & Hw). exists (String c ws).
      split; [rewrite append_String; congruence | simpl; tauto].
    + exists "". split; [reflexivity | exact I].
Qed.

(** White space in front of a text that starts with a code unit that
    is not white space is exactly what [trimStart] removes. *)
Lemma trimStart_app (ws : string) (c : ascii) (u : string) :
  allWhiteSpace ws → isWhiteSpace c = false →
  trimStart (ws ++ String c u) = String c u.
Proof.
  intros Hw Hc. induction ws as [|w ws IH].
  - rewrite append_empty. simpl. rewrite Hc. reflexivity.
  - destruct Hw as [Hw1 Hw2]. rewrite append_String. simpl. rewrite Hw1. apply IH, Hw2.
Qed.

Lemma spanSign_decompose (t : string) :
  ∃ sign, isSign sign ∧ t = sign ++ (spanSign t).2.
Proof.
  destruct t as [|c t]; simpl.
  - exists "". split; [left; reflexivity | reflexivity].
  - destruct (Ascii.eqb c "-") eqn:E1; [|destruct (Ascii.eqb c "+") eqn:E2].
    + apply Ascii.eqb_eq in E1. subst. exists "-". split; [right; right; reflexivity | reflexivity].
    + apply Ascii.eqb_eq in E2. subst. exists "+". split; [right; left; reflexivity | reflexivity].
    + exists "". split; [left; reflexivity | reflexivity].
Qed.

(** Every text is white space, an optional sign, and what the two
    parsers take as the body. *)
Lemma signed_decompose (s : string) :
  ∃ ws sign, allWhiteSpace ws ∧ isSign sign
             ∧ s = ws ++ sign ++ (spanSign (trimStart s)).2.
Proof.
  destruct (trimStart_decompose s) as (ws & Hs & Hw).
  destruct (spanSign_decompose (trimStart s)) as (sign & Hsign & Ht).
  exists ws, sign. repeat split; try assumption. congruence.
Qed.

(** Conversely the parsers find the body of a signed text. *)
Lemma signed_body (ws sign : string) (c : ascii) (u : string) :
  allWhiteSpace ws → isSign sign → visible c →
  (spanSign (trimStart (ws ++ sign ++ String c u))).2 = String c u.
Proof.
  intros Hw Hsign (Hc1 & Hc2 & Hc3).
  destruct Hsign as [-> | [-> | ->]]; rewrite ?append_String, ?append_empty.
  - rewrite (trimStart_app ws c u Hw Hc1). unfold spanSign. rewrite Hc2, Hc3. reflexivity.
  - rewrite (trimStart_app ws "+" (String c u) Hw eq_refl). reflexivity.
  - rewrite (trimStart_app ws "-" (String c u) Hw eq_refl). reflexivity.
Qed.

Lemma spanDigits_head (s : string) :
  match (spanDigits s).1 with
  | EmptyString => ¬ startsWithDigit s ∧ (spanDigits s).2 = s
  | String _ _ => startsWithDigit s
  end.
Proof.
  destruct s as [|c s]; simpl.
  - split; [|reflexivity]. intros (d & r & H & _). discriminate.
  - destruct (isDigit c) eqn:E.
    + destruct (spanDigits s) as [ds rest]. simpl. exists c, s. split; [reflexivity | exact E].
    + simpl. split; [|reflexivity]. intros (d & r & H & Hd). injection H as -> ->. congruence.
Qed.

Lemma spanDigits_digit (d : ascii) (r : string) :
  isDigit d = true → ∃ ds r', spanDigits (String d r) = (String d ds, r').
Proof.
  intros Hd. simpl. rewrite Hd. destruct (spanDigits r) as [ds r']. eauto.
Qed.

(** [parseInt] yields a number exactly on the texts that start with an
    integer numeral, and [NaN] on all others. *)
Lemma parseInt_number_iff (s : string) : isNaN (parseInt s) = false ↔ integerText s.
Proof.
  unfold parseInt. split.
  - destruct (signed_decompose s) as (ws & sign & Hw & Hsign & Hs).
    destruct (spanSign (trimStart s)) as [minus body]. simpl in Hs.
    pose proof (spanDigits_head body) as Hd.
    destruct (spanDigits body) as [ds r]. simpl in Hd.
    intros Hn. exists ws, sign, body. repeat split; try assumption.
    destruct ds; [discriminate | exact Hd].
  - intros (ws & sign & rest & -> & Hw & Hsign & d & r & -> & Hd).
    pose proof (signed_body ws sign d r Hw Hsign (digit_visible d Hd)) as Hb.
    destruct (spanSign (trimStart (ws ++ sign ++ String d r))) as [minus body].
    simpl in Hb. subst body.
    destruct (spanDigits_digit d r Hd) as (ds & r' & ->). reflexivity.
Qed.

Lemma prefix_iff (p s : string) :
  String.prefix p s = true ↔ ∃ rest, s = p ++ rest.
Proof.
  revert s. induction p as [|a p IH]; intros s.
  - split; [intros _; exists s; reflexivity | intros _; destruct s; reflexivity].
  - destruct s as [|b s].
    + split; [discriminate | intros (rest & H); discriminate].
    + change (String.prefix (String a p) (String b s))
        with (if ascii_dec a b then String.prefix p s else false).
      destruct (ascii_dec a b) as [->|Hne].
      * rewrite IH. split; intros (rest & H); exists rest.
        -- rewrite append_String. congruence.
        -- rewrite append_String in H. congruence.
      * split; [discriminate|]. intros (rest & H). rewrite append_String in H. congruence.
Qed.

Lemma startsDecimal_visible (s : string) :
  startsDecimal s → ∃ c u, s = String c u ∧ visible c.
Proof.
  intros [(d & r & -> & Hd) | [(r & -> & _) | (r & ->)]].
  - exists d, r. split; [reflexivity | apply digit_visible, Hd].
  - exists "."%char, r. split; [reflexivity | repeat split].
  - exists "I"%char, ("nfinity" ++ r). split; [reflexivity | repeat split].
Qed.

(** [unsignedDecimal] finds a value exactly when the text starts a
    decimal literal, and the value is never [NaN]. *)
Lemma unsignedDecimal_Some (s : string) (v : number) :
  unsignedDecimal s = Some v → startsDecimal s ∧ isNaN v = false.
Proof.
  unfold unsignedDecimal.
  destruct (String.prefix "Infinity" s) eqn:Hp.
  { intros [= <-]. split; [|reflexivity]. right; right. apply prefix_iff, Hp. }
  pose proof (spanDigits_head s) as Hip.
  destruct (spanDigits s) as [ip r1]. simpl in Hip.
  destruct ip as [|d ip'].
  - destruct Hip as [_ ->].
    destruct s as [|c r]; [discriminate|].
    destruct (Ascii.eqb c ".") eqn:Hc; [|discriminate].
    apply Ascii.eqb_eq in Hc. subst c.
    pose proof (spanDigits_head r) as Hfd.
    destruct (spanDigits r) as [fd r']. simpl in Hfd.
    destruct fd as [|f fd']; [discriminate|].
    intros [= <-]. split; [|reflexivity]. right; left. exists r. split; [reflexivity | exact Hfd].
  - intros Hv. split; [left; exact Hip|].
    destruct r1 as [|c r].
    + injection Hv as <-. reflexivity.
    + destruct (Ascii.eqb c "."); [destruct (spanDigits r) as [fd r']|];
        injection Hv as <-; reflexivity.
Qed.

Lemma unsignedDecimal_complete (s : string) :
  startsDecimal s → ∃ v, unsignedDecimal s = Some v.
Proof.
  intros Hs. destruct (unsignedDecimal s) as [v|] eqn:E; [eauto|]. exfalso.
  revert E. unfold unsignedDecimal.
  destruct Hs as [(d & r & -> & Hd) | [(r & -> & d & r2 & -> & Hd) | (r & ->)]].
  - destruct (String.prefix "Infinity" (String d r)); [discriminate|].
    destruct (spanDigits_digit d r Hd) as (ds & r' & ->).
    destruct r' as [|c r'']; [discriminate|].
    destruct (Ascii.eqb c "."); [destruct (spanDigits r'')|]; discriminate.
  - change (String.prefix "Infinity" (String "." (String d r2))) with false.
    change (spanDigits (String "." (String d r2))) with (EmptyString, String "."%char (String d r2)).
    cbv beta iota. change (Ascii.eqb "." ".") with true. cbv iota.
    destruct (spanDigits_digit d r2 Hd) as (ds & r' & ->). discriminate.
  - assert (String.prefix "Infinity" ("Infinity" ++ r) = true) as -> by
      (apply prefix_iff; eauto).
    discriminate.
Qed.

Lemma parseFloat_number_iff (s : string) : isNaN (parseFloat s) = false ↔ decimalText s.
Proof.
  unfold parseFloat. split.
  - destruct (signed_decompose s) as (ws & sign & Hw & Hsign & Hs).
    destruct (spanSign (trimStart s)) as [minus body]. simpl in Hs.
    destruct (unsignedDecimal body) as [v|] eqn:Hv; [|discriminate].
    intros _. exists ws, sign, body. repeat split; try assumption.
    apply (unsignedDecimal_Some body v Hv).
  - intros (ws & sign & rest & -> & Hw & Hsign & Hrest).
    destruct (startsDecimal_visible rest Hrest) as (c & u & -> & Hc).
    pose proof (signed_body ws sign c u Hw Hsign Hc) as Hb.
    destruct (spanSign (trimStart (ws ++ sign ++ String c u))) as [minus body].
    simpl in Hb. subst body.
    destruct (unsignedDecimal_complete _ Hrest) as (v & Hv). rewrite Hv.
    apply unsignedDecimal_Some in Hv as [_ Hv].
    destruct minus; [|exact Hv]. destruct v; simpl in *; congruence.
Qed.

Example parseInt_examples :
  parseInt "  42abc" = Fin 42
  ∧ parseInt "-7" = Fin (-7)
  ∧ parseInt "abc" = NaN
  ∧ parseInt "" = NaN
  ∧ parseInt "undefined" = NaN.
Proof. repeat split. Qed.

Example parseFloat_examples :
  parseFloat "10.5" = Fin (21 # 2)
  ∧ parseFloat " .5e1x" = Fin 5
  ∧ parseFloat "1e" = Fin 1
  ∧ parseFloat "-Infinity" = NegInfinity
  ∧ parseFloat "abc" = NaN
  ∧ parseFloat "." = NaN.
Proof. repeat split. Qed.

End ParseFacts.

(** ** The lines of a text, and one record per data line *)

Module LineFacts.
Import JsNumber JsString JsGlobal JsObject Csv Spec CsvFacts ParseFacts CsvText.
Open Scope string_scope.

Lemma splitLines_last_line (l : string) : noLF l = true → splitLines l = [l].
Proof.
  induction l as [|c l IH]; [reflexivity|]. simpl noLF.
  intros H. apply andb_prop in H as [H1 Hl]. apply negb_true_iff in H1.
  specialize (IH Hl). simpl. rewrite H1.
  destruct l as [|c' l'].
  - reflexivity.
  - simpl in Hl. apply andb_prop in Hl as [H2 _]. apply negb_true_iff in H2.
    rewrite H2, andb_false_r. rewrite IH. reflexivity.
Qed.

Lemma splitLines_ended_line (l : string) (e : ending) (s : string) :
  noLF l = true → (e = Unix → endsWithCR l = false) →
  splitLines (l ++ endingText e ++ s) = l :: splitLines s.
Proof.
  induction l as [|c l IH]; intros Hl He.
  - destruct e; reflexivity.
  - simpl noLF in Hl. apply andb_prop in Hl as [H1 Hl]. apply negb_true_iff in H1.
    assert (He' : e = Unix → endsWithCR l = false).
    { intros Hu. specialize (He Hu). destruct l; [reflexivity | exact He]. }
    specialize (IH Hl He').
    rewrite append_String. simpl splitLines. rewrite H1.
    destruct l as [|c' l'].
    + rewrite append_empty in *. rewrite IH. destruct e.
      * simpl endsWithCR in He. rewrite (He eq_refl). reflexivity.
      * change (endingText Windows ++ s) with (String CR (String LF s)).
        cbv iota. change (Ascii.eqb CR LF) with false. rewrite andb_false_r. reflexivity.
    + rewrite append_String in *. simpl in Hl. apply andb_prop in Hl as [H2 _].
      apply negb_true_iff in H2. rewrite H2, andb_false_r, IH. reflexivity.
Qed.

(** Splitting a text gives back the lines it was made of. *)
Lemma splitLines_textOf (first : string) (rest : list (ending * string)) :
  wellSplit first rest → splitLines (textOf first rest) = first :: List.map snd rest.
Proof.
  revert first. induction rest as [|[e l] rest IH]; intros first Hw; simpl in *.
  - apply splitLines_last_line, Hw.
  - destruct Hw as (Hfirst & He & Hw).
    rewrite (splitLines_ended_line first e _ Hfirst He), (IH l Hw). reflexivity.
Qed.

Lemma textOf_String (c : ascii) (first : string) (rest : list (ending * string)) :
  textOf (String c first) rest = String c (textOf first rest).
Proof.
  destruct rest as [|[e l] rest]; [reflexivity|]. simpl. rewrite append_String. reflexivity.
Qed.

(** Every text is made of lines. *)
Lemma textOf_splitLines (csv : string) :
  ∃ first rest, csv = textOf first rest ∧ wellSplit first rest.
Proof.
  induction csv as [|c s (first & rest & Hs & Hw)].
  - exists "", []. split; [reflexivity | split; [reflexivity | exact I]].
  - destruct (Ascii.eqb c LF) eqn:Hc.
    { apply Ascii.eqb_eq in Hc. subst c.
      exists "", ((Unix, first) :: rest). simpl. rewrite Hs.
      split; [reflexivity|]. split; [reflexivity|]. split; [reflexivity | exact Hw]. }
    assert (Hkeep :
              (Ascii.eqb c CR = true → first ≠ "" ∨ ∀ l rest', rest ≠ (Unix, l) :: rest') →
              ∃ first0 rest0, String c s = textOf first0 rest0 ∧ wellSplit first0 rest0).
    { intros Hcr. exists (String c first), rest. rewrite textOf_String, Hs.
      split; [reflexivity|].
      destruct rest as [|[e l] rest']; simpl in *; destruct Hw as [Hw Hrest]; rewrite Hc, Hw.
      - split; [reflexivity | exact I].
      - destruct Hrest as [He Hw']. split; [reflexivity|]. split; [|exact Hw'].
        intros Hu. specialize (He Hu). destruct first as [|c' first']; [|exact He].
        destruct (Ascii.eqb c CR); [|reflexivity].
        destruct (Hcr eq_refl) as [Hne|Hne]; [contradiction|].
        subst e. exfalso. exact (Hne l rest' eq_refl). }
    destruct (Ascii.eqb c CR) eqn:Hcr; [|apply Hkeep; discriminate].
    destruct first as [|c' first']; [|apply Hkeep; intros _; left; discriminate].
    destruct rest as [|[[|] l] rest'];
      [apply Hkeep; intros _; right; discriminate | | apply Hkeep; intros _; right; discriminate].
    apply Ascii.eqb_eq in Hcr. subst c.
    exists "", ((Windows, l) :: rest'). simpl in *. rewrite Hs.
    split; [reflexivity|]. split; [reflexivity|]. split; [discriminate | apply Hw].
Qed.

(** C3.  Every text is made of lines in one way only: lines without
    line feed, each but the last followed by a line ending, which is a
    line feed together with the carriage return right before it when
    there is one.  Both loaders emit one record per data line, that is
    per line after the header whose trimmed content is not empty, in
    the order of the input (the records are the images of the data
    lines under the per-line parser, and the data lines are a
    subsequence of the lines of the text); on a text with no line but
    blank ones, the empty text included, they emit no record.  The
    loaders are total functions: they do not fail. *)
Theorem parseCsv_one_record_per_data_line (csv : string) :
  (∃ first rest,
     csv = textOf first rest
     ∧ wellSplit first rest
     ∧ (∀ first' rest', csv = textOf first' rest' → wellSplit first' rest' →
          first' :: List.map snd rest' = first :: List.map snd rest)
     ∧ let ls := first :: List.map snd rest in
       match headerLine ls with
       | Some h =>
           TransectElevations.parseCsv csv
             = List.map (TransectElevations.parseLine (headersOf h)) (dataLines ls)
           ∧ StreamElevations.parseCsv csv
             = List.map (StreamElevations.parseLine (headersOf h)) (dataLines ls)
       | None =>
           Forall blank ls
           ∧ TransectElevations.parseCsv csv = []
           ∧ StreamElevations.parseCsv csv = []
       end
       ∧ List.length (TransectElevations.parseCsv csv) = List.length (dataLines ls)
       ∧ List.length (StreamElevations.parseCsv csv) = List.length (dataLines ls)
       ∧ sublist (dataLines ls) ls
       ∧ Forall (fun l => ¬ blank l) (dataLines ls)
       ∧ (Forall blank ls →
          TransectElevations.parseCsv csv = [] ∧ StreamElevations.parseCsv csv = []))
  ∧ TransectElevations.parseCsv "" = []
  ∧ StreamElevations.parseCsv "" = [].
Proof.
  split; [|split; reflexivity].
  destruct (textOf_splitLines csv) as (first & rest & Hcsv & Hw).
  exists first, rest. split; [exact Hcsv|]. split; [exact Hw|].
  pose proof (splitLines_textOf first rest Hw) as Hsplit. rewrite <- Hcsv in Hsplit.
  split.
  - intros first' rest' Hcsv' Hw'.
    rewrite <- (splitLines_textOf first' rest' Hw'), <- Hcsv'. exact Hsplit.
  - rewrite <- Hsplit.
    destruct (parseCsv_data_lines csv) as (H1 & H2 & H3 & H4 & H5 & H6 & _).
    exact (conj H1 (conj H2 (conj H3 (conj H4 (conj H5 H6))))).
Qed.

End LineFacts.

(** ** The per-field coercions of the loaders *)

Module CoercionFacts.
Import JsNumber JsString JsGlobal JsObject Csv Spec CsvFacts ParseFacts.
Open Scope string_scope.

Lemma parseInt_non_numeric (text : string) :
  ¬ integerText text → parseInt text = NaN.
Proof.
  intros H. destruct (parseInt text) eqn:E; try reflexivity;
    exfalso; apply H, parseInt_number_iff; rewrite E; reflexivity.
Qed.

Lemma parseFloat_non_numeric (text : string) :
  ¬ decimalText text → parseFloat text = NaN.
Proof.
  intros H. destruct (parseFloat text) eqn:E; try reflexivity;
    exfalso; apply H, parseFloat_number_iff; rewrite E; reflexivity.
Qed.

(** The text of column [i] of a line, as the loaders store it. *)
Lemma setField_lookup (cols : list string) (obj : gmap string string)
    (i : nat) (h' h : string) :
  h ≠ "__proto__" →
  setField cols obj (i, h') !! h
  = if String.eqb h' h
    then Some (match cols !! i with Some c => trim c | None => "" end)
    else obj !! h.
Proof.
  intros Hproto. unfold setField. simpl.
  destruct (String.eqb h' h) eqn:E.
  - apply String.eqb_eq in E. subst h'.
    destruct (String.eqb h "__proto__") eqn:E2.
    + apply String.eqb_eq in E2. contradiction.
    + apply lookup_insert_eq.
  - apply String.eqb_neq in E.
    destruct (String.eqb h' "__proto__"); [reflexivity|].
    apply lookup_insert_ne. exact E.
Qed.

Lemma fold_setField_other (cols : list string) (hs : list string) (s : nat)
    (obj : gmap string string) (h : string) :
  h ≠ "__proto__" → ¬ In h hs →
  List.fold_left (setField cols) (List.combine (List.seq s (List.length hs)) hs) obj !! h
  = obj !! h.
Proof.
  intros Hproto. revert s obj. induction hs as [|h0 hs IH]; intros s obj Hnot; simpl.
  - reflexivity.
  - rewrite IH by (intros Hin; apply Hnot; right; exact Hin).
    rewrite setField_lookup by exact Hproto.
    destruct (String.eqb h0 h) eqn:E; [|reflexivity].
    apply String.eqb_eq in E. exfalso. apply Hnot. left. exact E.
Qed.

Lemma fold_setField_lookup (cols : list string) (hs : list string) (s : nat)
    (obj : gmap string string) (j : nat) (h : string) :
  h ≠ "__proto__" →
  hs !! j = Some h →
  (∀ (k : nat) h', (j < k)%nat → hs !! k = Some h' → h' ≠ h) →
  List.fold_left (setField cols) (List.combine (List.seq s (List.length hs)) hs) obj !! h
  = Some (match cols !! (s + j)%nat with Some c => trim c | None => "" end).
Proof.
  intros Hproto. revert s obj j. induction hs as [|h0 hs IH]; intros s obj j Hj Hlast.
  - discriminate.
  - simpl. destruct j as [|j].
    + injection Hj as ->.
      rewrite fold_setField_other; [|exact Hproto|].
      * rewrite setField_lookup by exact Hproto. rewrite String.eqb_refl.
        rewrite Nat.add_0_r. reflexivity.
      * intros Hin. apply list_elem_of_In, list_elem_of_lookup in Hin as [k Hk].
        apply (Hlast (S k) h); [lia | exact Hk | reflexivity].
    + rewrite (IH (S s) _ j Hj).
      * replace (S s + j)%nat with (s + S j)%nat by lia. reflexivity.
      * intros k h' Hk Hh'. apply (Hlast (S k) h'); [lia | exact Hh'].
Qed.

(** The raw field of a header that is not repeated further right is the
    trimmed text of the column at the header's index, and the empty
    text when the line has no such column. *)
Lemma rawFields_lookup (headers : list string) (line : string) (j : nat) (h : string) :
  h ≠ "__proto__" →
  headers !! j = Some h →
  (∀ (k : nat) h', (j < k)%nat → headers !! k = Some h' → h' ≠ h) →
  rawFields headers line !! h
  = Some (match split "," line !! j with Some c => trim c | None => "" end).
Proof.
  intros Hproto Hj Hlast. unfold rawFields.
  rewrite (fold_setField_lookup _ _ 0 ∅ j h Hproto Hj Hlast). reflexivity.
Qed.

(** A header that does not occur has no raw field. *)
Lemma rawFields_missing (headers : list string) (line : string) (h : string) :
  h ≠ "__proto__" → ¬ In h headers → rawFields headers line !! h = None.
Proof.
  intros Hproto Hnot. unfold rawFields.
  rewrite fold_setField_other by assumption. apply lookup_empty.
Qed.

(** The fields of a record of the transect loader. *)
Lemma transect_parseLine_fields (headers : list string) (line : string) :
  let raw := rawFields headers line in
  let row := TransectElevations.parseLine headers line in
  row !! "transect_id" = Some (VNumber (parseInt (readText raw "transect_id")))
  ∧ row !! "vertex_index" = Some (VNumber (parseInt (readText raw "vertex_index")))
  ∧ row !! "elevation" = Some (VNumber (parseFloat (readText raw "elevation")))
  ∧ row !! "dam" =
      (fun text => if isNaN (parseFloat text) then VUndefined else VNumber (parseFloat text))
        <$> raw !! "dam".
Proof.
  intros raw row. subst row. unfold TransectElevations.parseLine. fold raw.
  destruct (raw !! "dam") as [text|] eqn:Hdam; simpl.
  - repeat split; simplify_map_eq; reflexivity.
  - repeat split; simplify_map_eq; reflexivity.
Qed.

(** The fields of a record of the stream loader. *)
Lemma stream_parseLine_fields (headers : list string) (line : string) :
  let raw := rawFields headers line in
  let row := StreamElevations.parseLine headers line in
  row !! "vertex_id" = (fun text => VNumber (parseInt text)) <$> raw !! "vertex_id"
  ∧ row !! "elevation_normalized_m"
    = (fun text => VNumber (parseFloat text)) <$> raw !! "elevation_normalized_m"
  ∧ row !! "elevation" = (fun text => VNumber (parseFloat text)) <$> raw !! "elevation".
Proof.
  intros raw row. subst row. unfold StreamElevations.parseLine, StreamElevations.coerce.
  fold raw.
  destruct (raw !! "vertex_id") eqn:H1, (raw !! "elevation_normalized_m") eqn:H2,
    (raw !! "elevation") eqn:H3; simpl;
    repeat split; simplify_map_eq; rewrite ?lookup_fmap, ?H1, ?H2, ?H3; reflexivity.
Qed.

Lemma Forall2_map_r {A B : Type} (P : A → B → Prop) (f : A → B) (l : list A) :
  (∀ x, P x (f x)) → Forall2 P l (List.map f l).
Proof. intros H. induction l; simpl; constructor; auto. Qed.

(** C6, as amended.  In every record that the loaders emit, a field
    whose text does not start with a numeral (after white space and
    an optional sign) is coerced to [NaN]: [transect_id],
    [vertex_index] and [elevation] in the transect loader (a missing
    column reads as the text [undefined]), and [vertex_id],
    [elevation_normalized_m] and [elevation] in the stream loader when
    the column is there.  The field [dam] is the exception: such a
    text is coerced to [undefined].  The coercions are total: no error
    is raised. *)
Theorem non_numeric_text_coercion (csv : string) :
  let ls := splitLines csv in
  let headers := headersOf (default "" (headerLine ls)) in
  Forall2
    (fun line row =>
       let raw := rawFields headers line in
       (¬ integerText (readText raw "transect_id")
        → row !! "transect_id" = Some (VNumber NaN))
       ∧ (¬ integerText (readText raw "vertex_index")
          → row !! "vertex_index" = Some (VNumber NaN))
       ∧ (¬ decimalText (readText raw "elevation")
          → row !! "elevation" = Some (VNumber NaN))
       ∧ (∀ text, raw !! "dam" = Some text → ¬ decimalText text
          → row !! "dam" = Some VUndefined))
    (dataLines ls) (TransectElevations.parseCsv csv)
  ∧ Forall2
      (fun line row =>
         let raw := rawFields headers line in
         (∀ text, raw !! "vertex_id" = Some text → ¬ integerText text
          → row !! "vertex_id" = Some (VNumber NaN))
         ∧ (∀ text, raw !! "elevation_normalized_m" = Some text → ¬ decimalText text
            → row !! "elevation_normalized_m" = Some (VNumber NaN))
         ∧ (∀ text, raw !! "elevation" = Some text → ¬ decimalText text
            → row !! "elevation" = Some (VNumber NaN)))
      (dataLines ls) (StreamElevations.parseCsv csv).
Proof.
  intros ls headers.
  destruct (parseCsv_data_lines csv) as (Hrows & _).
  fold ls in Hrows. subst headers.
  destruct (headerLine ls) as [h|] eqn:Hh; simpl default.
  - destruct Hrows as [-> ->]. split; apply Forall2_map_r; intros line.
    + destruct (transect_parseLine_fields (headersOf h) line) as (H1 & H2 & H3 & H4).
      cbv zeta. repeat split.
      * intros Hn. rewrite H1, (parseInt_non_numeric _ Hn). reflexivity.
      * intros Hn. rewrite H2, (parseInt_non_numeric _ Hn). reflexivity.
      * intros Hn. rewrite H3, (parseFloat_non_numeric _ Hn). reflexivity.
      * intros text Ht Hn. rewrite H4, Ht. simpl.
        rewrite (parseFloat_non_numeric _ Hn). reflexivity.
    + destruct (stream_parseLine_fields (headersOf h) line) as (H1 & H2 & H3).
      cbv zeta. repeat split; intros text Ht Hn.
      * rewrite H1, Ht. simpl. rewrite (parseInt_non_numeric _ Hn). reflexivity.
      * rewrite H2, Ht. simpl. rewrite (parseFloat_non_numeric _ Hn). reflexivity.
      * rewrite H3, Ht. simpl. rewrite (parseFloat_non_numeric _ Hn). reflexivity.
  - destruct Hrows as (Hb & -> & ->).
    assert (dataLines ls = []) as ->.
    { rewrite dataLines_filter. rewrite headerLine_filter in Hh.
      destruct (List.filter nonBlank ls); [reflexivity | discriminate]. }
    split; constructor.
Qed.

(** C6, as stated, fails on the field [dam]: the text [abc] is not
    numeric and the record holds [undefined] there, not [NaN]. *)
Lemma dam_non_numeric_becomes_undefined :
  let header := "transect_id,vertex_index,elevation,dam" in
  let line := "1,0,10.5,abc" in
  ∃ row,
    TransectElevations.parseCsv (header ++ newline ++ line) = [row]
    ∧ rawFields (headersOf header) line !! "dam" = Some "abc"
    ∧ ¬ decimalText "abc"
    ∧ row !! "dam" = Some VUndefined
    ∧ row !! "dam" ≠ Some (VNumber NaN).
Proof.
  eexists. split; [vm_compute; reflexivity|].
  split; [vm_compute; reflexivity|].
  split.
  { intros H. apply parseFloat_number_iff in H. vm_compute in H. discriminate. }
  split; [vm_compute; reflexivity | vm_compute; discriminate].
Qed.
End CoercionFacts.

(** ** The transect-elevations endpoint *)

Module EndpointFacts.
Import JsNumber JsString JsGlobal JsObject Csv Spec TransectElevations.
Open Scope string_scope.

Lemma filter_none {A : Type} (f : A → bool) (l : list A) :
  Forall (fun x => f x = false) l → List.filter f l = [].
Proof.
  induction 1 as [|x l Hx _ IH]; simpl; [reflexivity|]. rewrite Hx. exact IH.
Qed.

(** With a query value that is not empty, [GET] answers with the rows
    whose [transect_id] is strictly equal to the parsed value. *)
Lemma GET_filtered (content : string) (req : NextRequest) (s : string) :
  searchParams_get "transect_id" (searchParams req) = Some s →
  truthy s = true →
  GET (inl content) req
  = Json (List.filter (fun d => value_strict_eq (get d "transect_id") (parseInt s))
                      (parseCsv content)).
Proof. intros Hs Ht. unfold GET. rewrite Hs, Ht. reflexivity. Qed.

(** With an empty query value, as with none, [GET] answers with every row. *)
Lemma GET_unfiltered (content : string) (req : NextRequest) :
  searchParams_get "transect_id" (searchParams req) = None
  ∨ searchParams_get "transect_id" (searchParams req) = Some "" →
  GET (inl content) req = Json (parseCsv content).
Proof. intros [H|H]; unfold GET; rewrite H; reflexivity. Qed.

(** C7, as amended.  When the file was read and the query has a
    [transect_id] value that is not empty and whose parsed number is
    strictly equal to no row's [transect_id], [GET] answers with
    status 200 and the empty [data] array. *)
Theorem GET_unmatched_identifier (content : string) (req : NextRequest) (s : string) :
  searchParams_get "transect_id" (searchParams req) = Some s →
  truthy s = true →
  Forall (fun d => value_strict_eq (get d "transect_id") (parseInt s) = false)
         (parseCsv content) →
  GET (inl content) req = Json [].
Proof.
  intros Hs Ht Hnone. rewrite (GET_filtered content req s Hs Ht).
  rewrite (filter_none _ _ Hnone). reflexivity.
Qed.

(** Two rows of transect 1, queried for transect 7. *)
Lemma GET_unmatched_identifier_witness :
  let content := "transect_id,vertex_index,elevation" ++ newline ++ "1,0,10.5" ++ newline ++ "1,1,9.0" in
  let req := {| searchParams := [("transect_id", "7")] |} in
  searchParams_get "transect_id" (searchParams req) = Some "7"
  ∧ truthy "7" = true
  ∧ Forall (fun d => value_strict_eq (get d "transect_id") (parseInt "7") = false)
           (parseCsv content)
  ∧ GET (inl content) req = Json [].
Proof.
  intros content req.
  assert (H1 : searchParams_get "transect_id" (searchParams req) = Some "7") by reflexivity.
  assert (H2 : truthy "7" = true) by reflexivity.
  assert (H3 : Forall (fun d => value_strict_eq (get d "transect_id") (parseInt "7") = false)
                      (parseCsv content)).
  { vm_compute. repeat constructor. }
  exact (conj H1 (conj H2 (conj H3 (GET_unmatched_identifier content req "7" H1 H2 H3)))).
Defined.

(** C7, as stated, fails on the empty query value
    ([?transect_id=]): it matches no row, yet [GET] treats it like a
    missing parameter and answers with every row. *)
Lemma GET_empty_identifier_returns_all :
  let content := "transect_id,vertex_index,elevation" ++ newline ++ "1,0,10.5" in
  let req := {| searchParams := [("transect_id", "")] |} in
  searchParams_get "transect_id" (searchParams req) = Some ""
  ∧ Forall (fun d => value_strict_eq (get d "transect_id") (parseInt "") = false)
           (parseCsv content)
  ∧ (∃ row, GET (inl content) req = Json [row])
  ∧ GET (inl content) req ≠ Json [].
Proof.
  intros content req. split; [reflexivity|].
  split; [vm_compute; repeat constructor|].
  split; [eexists; vm_compute; reflexivity | vm_compute; discriminate].
Qed.
End EndpointFacts.

(** ** The coordinate scalers *)

Module ScalerFacts.
Import JsNumber Spec.

Lemma Qeq_bool_false_iff (p q : Q) : Qeq_bool p q = false ↔ ¬ (p == q)%Q.
Proof.
  split.
  - intros H E. apply Qeq_bool_iff in E. congruence.
  - intros H. destruct (Qeq_bool p q) eqn:E; [|reflexivity].
    apply Qeq_bool_iff in E. contradiction.
Qed.

(** The difference of two numbers that are not strictly equal is not
    zero: where the guard of a scaler fails, the denominator is not 0. *)
Lemma sub_not_zero (a b : number) :
  strict_eq a b = false → is_zero (sub a b) = false.
Proof.
  destruct a as [| |p|], b as [| |q|]; simpl; try reflexivity; try discriminate.
  rewrite !Qeq_bool_false_iff. intros Hne Hz. apply Hne.
  rewrite !Qred_correct in Hz.
  rewrite <- (Qplus_0_r q), <- Hz. ring.
Qed.

Lemma checked_div_defined (a b : number) :
  is_zero b = false → checked_div a b = Some (div a b).
Proof. intros H. unfold checked_div. rewrite H. reflexivity. Qed.

Lemma longitudinal_midpoint :
  add (left LongitudinalProfile.margin) (div LongitudinalProfile.innerW (of_Z 2))
  = midpoint (left LongitudinalProfile.margin)
             (add (left LongitudinalProfile.margin) LongitudinalProfile.innerW).
Proof. reflexivity. Qed.

(** C2.  With a degenerate domain ([maxX === minX]) the longitudinal
    x-scaler returns, for every value, exactly the midpoint of the
    pixel range, which is 520; with any other domain its denominator
    [maxX - minX] is not zero.  So no scaler of the two chart
    renderers ever divides by zero: each one agrees with its copy that
    checks every denominator (the domains of the other three scalers
    are constants that are not degenerate). *)
Theorem scaler_degenerate_domain (minX maxX x y : number) :
  (if strict_eq maxX minX
   then LongitudinalProfile.xScale minX maxX x
        = midpoint (left LongitudinalProfile.margin)
                   (add (left LongitudinalProfile.margin) LongitudinalProfile.innerW)
   else is_zero (sub maxX minX) = false)
  ∧ midpoint (left LongitudinalProfile.margin)
             (add (left LongitudinalProfile.margin) LongitudinalProfile.innerW)
    = Fin 520
  ∧ LongitudinalProfile.xScale_checked minX maxX x
    = Some (LongitudinalProfile.xScale minX maxX x)
  ∧ LongitudinalProfile.yScale_checked y = Some (LongitudinalProfile.yScale y)
  ∧ LateralProfile.xScale_checked x = Some (LateralProfile.xScale x)
  ∧ LateralProfile.yScale_checked y = Some (LateralProfile.yScale y).
Proof.
  split; [|split; [reflexivity|]; split; [|repeat split]].
  - unfold LongitudinalProfile.xScale.
    destruct (strict_eq maxX minX) eqn:E; [reflexivity | apply sub_not_zero, E].
  - unfold LongitudinalProfile.xScale_checked, LongitudinalProfile.xScale.
    destruct (strict_eq maxX minX) eqn:E.
    + reflexivity.
    + rewrite (checked_div_defined _ _ (sub_not_zero _ _ E)). reflexivity.
Qed.

(** C5, as amended.  On a degenerate domain the longitudinal x-scaler
    is constant, hence idempotent. *)
Theorem xScale_idempotent_on_degenerate_domain (minX maxX x : number) :
  strict_eq maxX minX = true →
  LongitudinalProfile.xScale minX maxX (LongitudinalProfile.xScale minX maxX x)
  = LongitudinalProfile.xScale minX maxX x.
Proof. intros H. unfold LongitudinalProfile.xScale. rewrite H. reflexivity. Qed.

(** The domain [[3, 3]] and the value 10. *)
Lemma xScale_idempotent_on_degenerate_domain_witness :
  strict_eq (of_Z 3) (of_Z 3) = true
  ∧ LongitudinalProfile.xScale (of_Z 3) (of_Z 3)
      (LongitudinalProfile.xScale (of_Z 3) (of_Z 3) (of_Z 10))
    = LongitudinalProfile.xScale (of_Z 3) (of_Z 3) (of_Z 10).
Proof.
  split; [reflexivity|].
  apply (xScale_idempotent_on_degenerate_domain (of_Z 3) (of_Z 3) (of_Z 10)).
  reflexivity.
Defined.

(** C5, as stated, fails: over a domain that is not degenerate a
    scaler is an affine map.  The lateral x-scaler sends 0 to 52 and
    52 to 748.8; the other scalers behave alike, in exact arithmetic
    and in binary64. *)
Lemma scaler_not_idempotent :
  LateralProfile.xScale (of_Z 0) = Fin 52
  ∧ LateralProfile.xScale (LateralProfile.xScale (of_Z 0)) = Fin (3744 # 5)
  ∧ strict_eq (LateralProfile.xScale (LateralProfile.xScale (of_Z 0)))
              (LateralProfile.xScale (of_Z 0)) = false
  ∧ LongitudinalProfile.xScale (of_Z 0) (of_Z 1) (of_Z 0) = Fin 52
  ∧ LongitudinalProfile.xScale (of_Z 0) (of_Z 1)
      (LongitudinalProfile.xScale (of_Z 0) (of_Z 1) (of_Z 0)) = Fin 48724
  ∧ LongitudinalProfile.yScale (of_Z 0) = Fin 74
  ∧ LongitudinalProfile.yScale (LongitudinalProfile.yScale (of_Z 0)) = Fin (- 1258 # 3)
  ∧ LateralProfile.yScale (of_Z 0) = Fin 142
  ∧ LateralProfile.yScale (LateralProfile.yScale (of_Z 0)) = Fin (- 781)
  ∧ Binary64.LateralProfile.xScale 0 = 52%float
  ∧ PrimFloat.eqb (Binary64.LateralProfile.xScale (Binary64.LateralProfile.xScale 0))
                  (Binary64.LateralProfile.xScale 0) = false
  ∧ PrimFloat.eqb
      (Binary64.LongitudinalProfile.xScale 0 1 (Binary64.LongitudinalProfile.xScale 0 1 0))
      (Binary64.LongitudinalProfile.xScale 0 1 0) = false.
Proof. repeat split. Qed.

(** The binary64 scalers agree on the degenerate domain: the
    longitudinal x-scaler is then the constant 520. *)
Lemma binary64_xScale_degenerate (minX maxX x : float) :
  PrimFloat.eqb maxX minX = true →
  Binary64.LongitudinalProfile.xScale minX maxX x = 520%float.
Proof.
  intros H. unfold Binary64.LongitudinalProfile.xScale. rewrite H. reflexivity.
Qed.

(** The constant domains of the other three binary64 scalers are not
    degenerate: their denominators are 22.5, 40 and 40. *)
Lemma binary64_constant_denominators :
  (Binary64.LongitudinalProfile.maxY - Binary64.LongitudinalProfile.minY = 22.5)%float
  ∧ (Binary64.LateralProfile.maxX - Binary64.LateralProfile.minX = 40)%float
  ∧ (Binary64.LateralProfile.maxY - Binary64.LateralProfile.minY = 40)%float.
Proof. repeat split. Qed.

End ScalerFacts.

(** ** The haversine distance *)

Module HaversineFacts.
Import StreamMap Spec.
Open Scope R_scope.

Lemma earth_radius : 6371e3 = 6371000.
Proof. lra. Qed.

Lemma half_angle (x : R) : (sin (x / 2))² = (1 - cos x) / 2.
Proof.
  replace (cos x) with (cos (2 * (x / 2))) by (f_equal; lra).
  rewrite cos_2a_sin. unfold Rsqr. lra.
Qed.

(** The quantity [a] of the haversine formula is half of one minus
    the cosine of the central angle. *)
Lemma haversine_a_cosine (φ1 φ2 Δλ : R) :
  (sin ((φ2 - φ1) / 2))² + cos φ1 * cos φ2 * (sin (Δλ / 2))²
  = (1 - (sin φ1 * sin φ2 + cos φ1 * cos φ2 * cos Δλ)) / 2.
Proof.
  rewrite !half_angle, cos_minus. lra.
Qed.

Lemma cosine_bounds (φ1 φ2 Δλ : R) :
  -1 <= sin φ1 * sin φ2 + cos φ1 * cos φ2 * cos Δλ <= 1.
Proof.
  pose proof (sin2_cos2 φ1) as H1. pose proof (sin2_cos2 φ2) as H2.
  pose proof (COS_bound Δλ) as [Hu1 Hu2].
  unfold Rsqr in *.
  set (s1 := sin φ1) in *. set (c1 := cos φ1) in *.
  set (s2 := sin φ2) in *. set (c2 := cos φ2) in *.
  set (u := cos Δλ) in *.
  clearbody s1 c1 s2 c2 u.
  pose proof (Rle_0_sqr (s1 - s2)) as Q1. pose proof (Rle_0_sqr (c1 - c2)) as Q2.
  pose proof (Rle_0_sqr (s1 + s2)) as Q3. pose proof (Rle_0_sqr (c1 + c2)) as Q4.
  unfold Rsqr in *.
  assert (A : 0 <= 1 - s1 * s2 - c1 * c2) by lra.
  assert (B : 0 <= 1 - s1 * s2 + c1 * c2) by lra.
  assert (C : 0 <= 1 + s1 * s2 - c1 * c2) by lra.
  assert (D : 0 <= 1 + s1 * s2 + c1 * c2) by lra.
  clear Q1 Q2 Q3 Q4 H1 H2.
  split; nra.
Qed.

Lemma atan_nonneg (t : R) : 0 <= t → 0 <= atan t.
Proof.
  intros [Ht | <-]; [|rewrite atan_0; lra].
  apply atan_increasing in Ht. rewrite atan_0 in Ht. lra.
Qed.

(** For [0 <= a <= 1], [2 * atan2 (sqrt a) (sqrt (1 - a))] is the
    angle in [[0, PI]] whose cosine is [1 - 2 a]. *)
Lemma atan2_half_angle (a : R) :
  0 <= a <= 1 → 2 * atan2 (sqrt a) (sqrt (1 - a)) = acos (1 - 2 * a).
Proof.
  intros [Ha0 Ha1]. unfold atan2.
  destruct (Rlt_dec 0 (sqrt (1 - a))) as [Hpos | Hnpos].
  - assert (Hlt : a < 1).
    { destruct Ha1 as [?| ->]; [assumption|]. replace (1 - 1) with 0 in Hpos by lra.
      rewrite sqrt_0 in Hpos. lra. }
    set (t := sqrt a / sqrt (1 - a)).
    assert (Ht : 0 <= t).
    { unfold t. apply Rmult_le_pos; [apply sqrt_pos|].
      left. apply Rinv_0_lt_compat, Hpos. }
    assert (Ht2 : t² = a / (1 - a)).
    { unfold t, Rsqr. 
      replace (sqrt a / sqrt (1 - a) * (sqrt a / sqrt (1 - a)))
        with ((sqrt a * sqrt a) / (sqrt (1 - a) * sqrt (1 - a))) by (field; lra).
      rewrite !sqrt_sqrt by lra. reflexivity. }
    assert (Hcos : cos (2 * atan t) = 1 - 2 * a).
    { rewrite cos_2a_cos, cos_atan, Ht2.
      replace (1 + a / (1 - a)) with (/ (1 - a)) by (field; lra).
      assert (Hs : 0 < sqrt (/ (1 - a))).
      { apply sqrt_lt_R0, Rinv_0_lt_compat. lra. }
      replace (2 * (1 / sqrt (/ (1 - a))) * (1 / sqrt (/ (1 - a))))
        with (2 / (sqrt (/ (1 - a)) * sqrt (/ (1 - a)))) by (field; lra).
      rewrite sqrt_sqrt by (left; apply Rinv_0_lt_compat; lra).
      field. lra. }
    rewrite <- Hcos. symmetry. apply acos_cos.
    pose proof (atan_nonneg t Ht). pose proof (atan_bound t). lra.
  - assert (Hz : sqrt (1 - a) = 0) by (pose proof (sqrt_pos (1 - a)); lra).
    apply sqrt_eq_0 in Hz; [|lra].
    assert (a = 1) as -> by lra.
    replace (1 - 1) with 0 by lra. rewrite sqrt_0, sqrt_1.
    destruct (Rlt_dec 0 0) as [?|_]; [lra|].
    destruct (Rlt_dec 0 1) as [_|?]; [|lra].
    replace (1 - 2 * 1) with (- (1)) by lra.
    rewrite acos_opp, acos_1. lra.
Qed.

(** The source writes the squares as products. *)
Lemma calculateDistance_unfold (lat1 lon1 lat2 lon2 : R) :
  calculateDistance lat1 lon1 lat2 lon2 = haversine 6371000 lat1 lon1 lat2 lon2.
Proof.
  unfold calculateDistance, haversine, radians. cbv zeta.
  rewrite earth_radius. unfold Rsqr.
  rewrite !(Rmult_assoc (cos (lat1 * PI / 180) * cos (lat2 * PI / 180))).
  reflexivity.
Qed.

Lemma haversine_central_angle (radius lat1 lon1 lat2 lon2 : R) :
  haversine radius lat1 lon1 lat2 lon2
  = radius * centralAngle (radians lat1) (radians lon1) (radians lat2) (radians lon2).
Proof.
  unfold haversine, centralAngle. cbv zeta.
  replace (radians (lat2 - lat1)) with (radians lat2 - radians lat1)
    by (unfold radians; lra).
  replace (radians (lon2 - lon1)) with (radians lon2 - radians lon1)
    by (unfold radians; lra).
  rewrite haversine_a_cosine.
  set (C := sin (radians lat1) * sin (radians lat2)
            + cos (radians lat1) * cos (radians lat2) * cos (radians lon2 - radians lon1)).
  pose proof (cosine_bounds (radians lat1) (radians lat2) (radians lon2 - radians lon1)) as HC.
  fold C in HC.
  rewrite atan2_half_angle by lra.
  do 2 f_equal. lra.
Qed.


End HaversineFacts.

(** ** The nearest-transect locator *)

Module LocatorFacts.
Import JsNumber StreamMap Spec HaversineFacts.
Open Scope R_scope.

Lemma below_Dist_iff (x y : R) : below (Dist x) (Dist y) = true ↔ x < y.
Proof. simpl. destruct (Rlt_dec x y); split; intros; try assumption; try reflexivity; try discriminate; contradiction. Qed.

Lemma below_Dist_false_iff (x y : R) : below (Dist x) (Dist y) = false ↔ y <= x.
Proof. simpl. destruct (Rlt_dec x y); split; intros; try reflexivity; try discriminate; lra. Qed.

(** The inner loop, started from any [localMin]. *)
Lemma localMin_fold (mouseLat mouseLng : R) (coords : list (R * R)) (m : bound) :
  let ds := List.map (fun coord : R * R => calculateDistance mouseLat mouseLng coord.2 coord.1)
                     coords in
  match
    List.fold_left
      (fun localMin coord =>
         let '(lon, lat) := coord in
         let d := calculateDistance mouseLat mouseLng lat lon in
         if below (Dist d) localMin then Dist d else localMin)
      coords m
  with
  | Unbounded => m = Unbounded ∧ ds = []
  | Dist d =>
      (m = Dist d ∨ In d ds)
      ∧ (∀ e, In e ds → d <= e)
      ∧ (∀ x, m = Dist x → d <= x)
  end.
Proof.
  revert m. induction coords as [|[lon lat] rest IH]; intros m; simpl.
  - destruct m as [|x]; [split; reflexivity|].
    split; [left; reflexivity|]. split; [intros e []|]. intros y [= ->]. lra.
  - set (dc := calculateDistance mouseLat mouseLng lat lon).
    specialize (IH (if below (Dist dc) m then Dist dc else m)). simpl in IH.
    destruct (List.fold_left _ rest _) as [|d].
    + destruct IH as [Hm _]. destruct m as [|x]; simpl in Hm; [discriminate|].
      destruct (Rlt_dec dc x); discriminate.
    + destruct IH as (Hfrom & Hle & Hm).
      destruct m as [|x]; simpl in Hfrom, Hm.
      * specialize (Hm dc eq_refl). split; [|split].
        -- right. destruct Hfrom as [[= <-]|Hin]; [left; reflexivity | right; exact Hin].
        -- intros e [<-|He]; [exact Hm | apply Hle, He].
        -- intros y [=].
      * destruct (Rlt_dec dc x) as [Hlt|Hge].
        -- specialize (Hm dc eq_refl). split; [|split].
           ++ right. destruct Hfrom as [[= <-]|Hin]; [left; reflexivity | right; exact Hin].
           ++ intros e [<-|He]; [exact Hm | apply Hle, He].
           ++ intros y [= <-]. lra.
        -- specialize (Hm x eq_refl). split; [|split].
           ++ destruct Hfrom as [->|Hin]; [left; reflexivity | right; right; exact Hin].
           ++ intros e [<-|He]; [lra | apply Hle, He].
           ++ intros y [= <-]. exact Hm.
Qed.

(** [localMinOf] is the least of the distances to the positions of a
    transect, and [Infinity] when it has no position. *)
Lemma localMinOf_spec (mouseLat mouseLng : R) (f : TransectFeature) :
  match localMinOf mouseLat mouseLng (coordinates (geometry f)) with
  | Unbounded => vertexDistances mouseLat mouseLng f = []
  | Dist d =>
      In d (vertexDistances mouseLat mouseLng f)
      ∧ ∀ e, In e (vertexDistances mouseLat mouseLng f) → d <= e
  end.
Proof.
  unfold localMinOf, vertexDistances.
  pose proof (localMin_fold mouseLat mouseLng (coordinates (geometry f)) Unbounded) as H.
  simpl in H. destruct (List.fold_left _ _ _) as [|d].
  - apply H.
  - destruct H as ([[=]|Hin] & Hle & _). split; assumption.
Qed.

(** What the outer loop has established after the features [pre]. *)
Lemma visit_fold (mouseLat mouseLng : R) (pre : list TransectFeature) :
  let lm := fun g => localMinOf mouseLat mouseLng (coordinates (geometry g)) in
  match List.fold_left (visit mouseLat mouseLng) pre (None, Unbounded) with
  | (None, best) =>
      best = Unbounded ∧ ∀ g, In g pre → lm g = Unbounded
  | (Some f, best) =>
      ∃ (i : nat) (d : R),
        pre !! i = Some f ∧ best = Dist d ∧ lm f = Dist d
        ∧ (∀ g, In g pre → below (lm g) (Dist d) = false)
        ∧ (∀ (j : nat) g, (j < i)%nat → pre !! j = Some g → below (Dist d) (lm g) = true)
  end.
Proof.
  intros lm. induction pre as [|x pre IH] using rev_ind.
  - simpl. split; [reflexivity | intros g []].
  - rewrite List.fold_left_app. simpl.
    destruct (List.fold_left (visit mouseLat mouseLng) pre (None, Unbounded))
      as [[f|] best]; unfold visit; simpl; fold (lm x).
    + destruct IH as (i & d & Hi & -> & Hf & Hmin & Hfirst).
      pose proof (lookup_lt_Some _ _ _ Hi) as Hlen.
      destruct (lm x) as [|dx] eqn:Hx; simpl.
      * exists i, d. split; [apply lookup_app_l_Some, Hi|].
        repeat split; try assumption.
        -- intros g Hg. apply List.in_app_or in Hg as [Hg|[<-|[]]]; [apply Hmin, Hg|].
           rewrite Hx. reflexivity.
        -- intros j g Hj Hg. rewrite lookup_app_l in Hg by lia. eapply Hfirst; eassumption.
      * destruct (Rlt_dec dx d) as [Hlt|Hge].
        -- exists (List.length pre), dx.
           split; [rewrite lookup_app_r by reflexivity; rewrite Nat.sub_diag; reflexivity|].
           repeat split; try assumption.
           ++ intros g Hg. apply List.in_app_or in Hg as [Hg|[<-|[]]].
              ** specialize (Hmin g Hg). destruct (lm g) as [|e]; [reflexivity|].
                 apply below_Dist_false_iff in Hmin. apply below_Dist_false_iff. lra.
              ** rewrite Hx. apply below_Dist_false_iff. lra.
           ++ intros j g Hj Hg. rewrite lookup_app_l in Hg by exact Hj.
              assert (Hin : In g pre) by (apply list_elem_of_In, list_elem_of_lookup; eauto).
              specialize (Hmin g Hin). destruct (lm g) as [|e]; [reflexivity|].
              apply below_Dist_false_iff in Hmin. apply below_Dist_iff. lra.
        -- exists i, d. split; [apply lookup_app_l_Some, Hi|].
           repeat split; try assumption.
           ++ intros g Hg. apply List.in_app_or in Hg as [Hg|[<-|[]]]; [apply Hmin, Hg|].
              rewrite Hx. apply below_Dist_false_iff. lra.
           ++ intros j g Hj Hg. rewrite lookup_app_l in Hg by lia. eapply Hfirst; eassumption.
    + destruct IH as [-> Hall].
      destruct (lm x) as [|dx] eqn:Hx; simpl.
      * split; [reflexivity|]. intros g Hg.
        apply List.in_app_or in Hg as [Hg|[<-|[]]]; [apply Hall, Hg | exact Hx].
      * exists (List.length pre), dx.
        split; [rewrite lookup_app_r by reflexivity; rewrite Nat.sub_diag; reflexivity|].
        repeat split; try assumption.
        -- intros g Hg. apply List.in_app_or in Hg as [Hg|[<-|[]]].
           ++ rewrite (Hall g Hg). reflexivity.
           ++ rewrite Hx. apply below_Dist_false_iff. lra.
        -- intros j g Hj Hg. rewrite lookup_app_l in Hg by exact Hj.
           assert (Hin : In g pre) by (apply list_elem_of_In, list_elem_of_lookup; eauto).
           rewrite (Hall g Hin). reflexivity.
Qed.

(** The locator returns the first transect, in the order of the
    collection, that has a position at the least distance found among
    all positions of all transects. *)
Lemma findClosestTransect_spec (transectData : option TransectData)
    (mouseLat mouseLng : R) :
  match findClosestTransect transectData mouseLat mouseLng with
  | Some f =>
      ∃ (data : TransectData) (i : nat) (d : R),
        transectData = Some data
        ∧ features data !! i = Some f
        ∧ In d (vertexDistances mouseLat mouseLng f)
        ∧ (∀ g e, In g (features data) → In e (vertexDistances mouseLat mouseLng g) → d <= e)
        ∧ (∀ (j : nat) g e, (j < i)%nat → features data !! j = Some g →
              In e (vertexDistances mouseLat mouseLng g) → d < e)
  | None =>
      transectData = None
      ∨ ∃ data, transectData = Some data
                ∧ ∀ g, In g (features data) → coordinates (geometry g) = []
  end.
Proof.
  destruct transectData as [data|]; simpl; [|left; reflexivity].
  pose proof (visit_fold mouseLat mouseLng (features data)) as H. simpl in H.
  destruct (List.fold_left (visit mouseLat mouseLng) (features data) (None, Unbounded))
    as [[f|] best]; simpl.
  - destruct H as (i & d & Hi & _ & Hf & Hmin & Hfirst).
    exists data, i, d. split; [reflexivity|]. split; [exact Hi|].
    pose proof (localMinOf_spec mouseLat mouseLng f) as Hspec. rewrite Hf in Hspec.
    destruct Hspec as [Hin _]. split; [exact Hin|]. split.
    + intros g e Hg He. specialize (Hmin g Hg).
      pose proof (localMinOf_spec mouseLat mouseLng g) as Hg'.
      destruct (localMinOf mouseLat mouseLng (coordinates (geometry g))) as [|m].
      * rewrite Hg' in He. destruct He.
      * apply below_Dist_false_iff in Hmin. destruct Hg' as [_ Hle].
        specialize (Hle e He). lra.
    + intros j g e Hj Hg He. specialize (Hfirst j g Hj Hg).
      pose proof (localMinOf_spec mouseLat mouseLng g) as Hg'.
      destruct (localMinOf mouseLat mouseLng (coordinates (geometry g))) as [|m].
      * rewrite Hg' in He. destruct He.
      * apply below_Dist_iff in Hfirst. destruct Hg' as [_ Hle].
        specialize (Hle e He). lra.
  - right. exists data. split; [reflexivity|]. destruct H as [_ Hall].
    intros g Hg. specialize (Hall g Hg).
    pose proof (localMinOf_spec mouseLat mouseLng g) as Hg'. rewrite Hall in Hg'.
    unfold vertexDistances in Hg'. apply List.map_eq_nil in Hg'. exact Hg'.
Qed.

(** Ties: when the transect at index [i] reaches the least distance
    of all, the locator returns a transect at index [i] or before. *)
Lemma findClosestTransect_first_minimum (data : TransectData) (mouseLat mouseLng : R)
    (i : nat) (f : TransectFeature) (d : R) :
  features data !! i = Some f →
  In d (vertexDistances mouseLat mouseLng f) →
  (∀ g e, In g (features data) → In e (vertexDistances mouseLat mouseLng g) → d <= e) →
  ∃ (k : nat) (r : TransectFeature),
    (k <= i)%nat ∧ features data !! k = Some r
    ∧ findClosestTransect (Some data) mouseLat mouseLng = Some r.
Proof.
  intros Hi Hd Hmin.
  assert (Hf : In f (features data)) by (apply list_elem_of_In, list_elem_of_lookup; eauto).
  pose proof (findClosestTransect_spec (Some data) mouseLat mouseLng) as Hspec.
  destruct (findClosestTransect (Some data) mouseLat mouseLng) as [r|].
  - destruct Hspec as (data' & k & d' & [= <-] & Hk & Hd' & _ & Hfirst).
    exists k, r. split; [|split; [exact Hk | reflexivity]].
    destruct (Nat.le_gt_cases k i) as [?|Hlt]; [assumption|].
    assert (Hr : In r (features data)) by (apply list_elem_of_In, list_elem_of_lookup; eauto).
    pose proof (Hfirst i f d Hlt Hi Hd). pose proof (Hmin r d' Hr Hd'). lra.
  - exfalso. destruct Hspec as [[=]|(data' & [= <-] & Hall)].
    unfold vertexDistances in Hd. rewrite (Hall f Hf) in Hd. destruct Hd.
Qed.

(** A transect without a position leaves [closest] and [best] as
    they are. *)
Lemma visit_no_position (mouseLat mouseLng : R)
    (acc : option TransectFeature * bound) (f : TransectFeature) :
  coordinates (geometry f) = [] → visit mouseLat mouseLng acc f = acc.
Proof. intros H. unfold visit. rewrite H. reflexivity. Qed.

(** C10.  When the loaded collection has no feature, or every
    feature has an empty coordinate list, the locator returns none for
    every point: a transect without positions keeps [localMin] at
    [Infinity], so it never replaces [closest]. *)
Theorem findClosestTransect_none_without_positions (data : TransectData)
    (mouseLat mouseLng : R) :
  Forall (fun f => coordinates (geometry f) = []) (features data) →
  findClosestTransect (Some data) mouseLat mouseLng = None
  ∧ List.fold_left (visit mouseLat mouseLng) (features data) (None, Unbounded)
    = (None, Unbounded)
  ∧ ∀ acc f, coordinates (geometry f) = [] → visit mouseLat mouseLng acc f = acc.
Proof.
  intros Hall.
  assert (Hfold : List.fold_left (visit mouseLat mouseLng) (features data) (None, Unbounded)
                  = (None, Unbounded)).
  { induction Hall as [|f fs Hf _ IH]; simpl; [reflexivity|].
    rewrite (visit_no_position _ _ _ f Hf). exact IH. }
  split; [|split].
  - unfold findClosestTransect. rewrite Hfold. reflexivity.
  - exact Hfold.
  - intros acc f. apply visit_no_position.
Qed.

(** A collection of two features without positions, and the empty
    collection. *)
Lemma findClosestTransect_none_without_positions_witness :
  (Forall (fun f => coordinates (geometry f) = []) (features Examples.bareData)
   ∧ findClosestTransect (Some Examples.bareData) 20.94 71.19 = None)
  ∧ (Forall (fun f => coordinates (geometry f) = []) (features Examples.noFeatures)
     ∧ findClosestTransect (Some Examples.noFeatures) 20.94 71.19 = None).
Proof.
  assert (H1 : Forall (fun f => coordinates (geometry f) = []) (features Examples.bareData))
    by (repeat constructor).
  assert (H2 : Forall (fun f => coordinates (geometry f) = []) (features Examples.noFeatures))
    by constructor.
  exact (conj
           (conj H1 (proj1 (findClosestTransect_none_without_positions
                              Examples.bareData 20.94 71.19 H1)))
           (conj H2 (proj1 (findClosestTransect_none_without_positions
                              Examples.noFeatures 20.94 71.19 H2)))).
Defined.







End LocatorFacts.

(** ** The mouse-move handler *)

Module HoverFacts.
Import JsNumber StreamMap.

(** C9.  When the closest transect has the same [transect_id] as the
    hovered one by strict equality (both being none counts as the
    same), the handler leaves the hovered transect as it is and does
    not call [onActiveVertexChange]; so the hover state or the
    reported vertex change only when the two identifiers differ, and
    then the closest transect becomes the hovered one and its vertex
    (or [null]) is reported once, if the callback was given. *)
Theorem handleMapMouseMove_suppresses_repeats (transectData : option TransectData)
    (onActiveVertexChange : bool) (hoveredTransect : option TransectFeature) (e : LatLng) :
  let closest := findClosestTransect transectData (lat e) (lng e) in
  let outcome := handleMapMouseMove transectData onActiveVertexChange hoveredTransect e in
  (id_differs (idOf hoveredTransect) (idOf closest) = false →
     hovered outcome = hoveredTransect ∧ calls outcome = [])
  ∧ (hovered outcome ≠ hoveredTransect ∨ calls outcome ≠ [] →
     id_differs (idOf hoveredTransect) (idOf closest) = true)
  ∧ (id_differs (idOf hoveredTransect) (idOf closest) = true →
     hovered outcome = closest
     ∧ calls outcome
       = if onActiveVertexChange
         then [(fun f => vertex_id (properties f)) <$> closest]
         else []).
Proof.
  intros closest outcome. subst outcome. unfold handleMapMouseMove. fold closest.
  destruct (id_differs (idOf hoveredTransect) (idOf closest)); simpl.
  - split; [discriminate|]. split; [reflexivity|]. intros _. split; reflexivity.
  - split; [intros _; split; reflexivity|]. split; [|discriminate].
    intros [H|H]; contradiction.
Qed.

End HoverFacts.

(** ** Binary64 numbers: order and special values *)

Module FloatFacts.
Import Spec64.
Open Scope float_scope.

(** The comparisons are proved on the specification of floats
    ([Prim2SF], [SFcompare]) and carried over to the primitive
    operations by their axioms. *)

Lemma Prim2SF_nan (x : float) : Prim2SF x = S754_nan → x = nan.
Proof. intros H. apply Prim2SF_inj. rewrite H. reflexivity. Qed.

Lemma SFcompare_refl (x : spec_float) : x ≠ S754_nan → SFcompare x x = Some Eq.
Proof.
  destruct x as [s|s| |s m e]; intros H; try reflexivity; try contradiction.
  - destruct s; reflexivity.
  - simpl. rewrite Z.compare_refl.
    change (Pos.compare_cont Eq m m) with (Pos.compare m m). rewrite Pos.compare_refl.
    destruct s; reflexivity.
Qed.

(** Case analysis on the comparisons of exponents and mantissas. *)
Ltac compare_cases :=
  repeat match goal with
  | |- context [Pos.compare_cont Eq ?a ?b] =>
      change (Pos.compare_cont Eq a b) with (Pos.compare a b)
  | H : context [Pos.compare_cont Eq ?a ?b] |- _ =>
      change (Pos.compare_cont Eq a b) with (Pos.compare a b) in H
  end;
  repeat match goal with
  | H : context [Z.compare ?a ?b] |- _ => destruct (Z.compare_spec a b); subst
  | |- context [Z.compare ?a ?b] => destruct (Z.compare_spec a b); subst
  | H : context [Pos.compare ?a ?b] |- _ => destruct (Pos.compare_spec a b); subst
  | |- context [Pos.compare ?a ?b] => destruct (Pos.compare_spec a b); subst
  end;
  simpl in *; try reflexivity; try discriminate; try lia.

Lemma SFltb_irrefl (x : spec_float) : SFltb x x = false.
Proof.
  unfold SFltb. destruct x as [s|s| |s m e]; try reflexivity.
  - destruct s; reflexivity.
  - rewrite SFcompare_refl by discriminate. reflexivity.
Qed.

Lemma SFltb_trans (x y z : spec_float) :
  SFltb x y = true → SFltb y z = true → SFltb x z = true.
Proof.
  unfold SFltb.
  destruct x as [sx|sx| |sx mx ex], y as [sy|sy| |sy my ey], z as [sz|sz| |sz mz ez];
    simpl; try discriminate; try reflexivity;
    try (destruct sx; discriminate); try (destruct sy; discriminate);
    destruct sx, sy, sz; try discriminate; try reflexivity; intros H1 H2; compare_cases.
Qed.

Lemma SFltb_notlt_trans (x y z : spec_float) :
  SFltb x y = true → SFltb z y = false → z ≠ S754_nan → SFltb x z = true.
Proof.
  unfold SFltb.
  destruct x as [sx|sx| |sx mx ex], y as [sy|sy| |sy my ey], z as [sz|sz| |sz mz ez];
    simpl; try discriminate; try reflexivity; try congruence;
    try (destruct sx; discriminate); try (destruct sy; discriminate);
    destruct sx, sy, sz; try discriminate; try reflexivity; intros H1 H2 _; compare_cases.
Qed.

Lemma SFltb_not_nan (x y : spec_float) : SFltb x y = true → x ≠ S754_nan ∧ y ≠ S754_nan.
Proof.
  unfold SFltb. destruct x, y; simpl; try discriminate; intros _; split; discriminate.
Qed.

(** [<] on numbers: a strict order in which [NaN] compares with
    nothing. *)
Lemma ltb_irrefl (x : float) : (x <? x) = false.
Proof. rewrite ltb_spec. apply SFltb_irrefl. Qed.

Lemma ltb_trans (x y z : float) : (x <? y) = true → (y <? z) = true → (x <? z) = true.
Proof. rewrite !ltb_spec. apply SFltb_trans. Qed.

Lemma ltb_not_nan (x y : float) : (x <? y) = true → x ≠ nan ∧ y ≠ nan.
Proof.
  rewrite ltb_spec. intros H. apply SFltb_not_nan in H as [Hx Hy].
  split; intros ->; [apply Hx | apply Hy]; reflexivity.
Qed.

Lemma ltb_notlt_trans (x y z : float) :
  (x <? y) = true → (z <? y) = false → z ≠ nan → (x <? z) = true.
Proof.
  rewrite !ltb_spec. intros H1 H2 Hz. apply (SFltb_notlt_trans _ _ _ H1 H2).
  intros E. apply Hz, Prim2SF_nan, E.
Qed.

Lemma ltb_nan_l (x : float) : (nan <? x) = false.
Proof. rewrite ltb_spec. reflexivity. Qed.

Lemma ltb_nan_r (x : float) : (x <? nan) = false.
Proof.
  rewrite ltb_spec. change (Prim2SF nan) with S754_nan. unfold SFltb.
  destruct (Prim2SF x); reflexivity.
Qed.

(** Numbers that are not finite, and how they spread through the
    arithmetic. *)
Lemma is_finite_spec (x : float) : is_finite x = SFis_finite (Prim2SF x).
Proof.
  unfold is_finite, is_nan, is_infinity. rewrite !FloatAxioms.eqb_spec, abs_spec. unfold SFeqb.
  destruct (Prim2SF x) as [s|s| |s m e] eqn:E; try reflexivity.
  - destruct s; reflexivity.
  - rewrite SFcompare_refl by discriminate. reflexivity.
Qed.

Lemma not_finite_cases (x : float) :
  is_finite x = false → x = nan ∨ x = infinity ∨ x = neg_infinity.
Proof.
  rewrite is_finite_spec. destruct (Prim2SF x) as [s|s| |s m e] eqn:E; try discriminate; intros _.
  - destruct s; [right; right | right; left]; apply Prim2SF_inj; rewrite E; reflexivity.
  - left. apply Prim2SF_inj. rewrite E. reflexivity.
Qed.

Lemma sub_not_finite (x y : float) :
  is_finite x && is_finite y = false → is_finite (x - y) = false.
Proof.
  rewrite !is_finite_spec, sub_spec.
  destruct (Prim2SF x) as [sx|sx| |sx mx ex], (Prim2SF y) as [sy|sy| |sy my ey];
    try discriminate; intros _; try reflexivity; destruct sx, sy; reflexivity.
Qed.

Lemma mul_not_finite (x y : float) : is_finite x = false → is_finite (x * y) = false.
Proof.
  rewrite !is_finite_spec, mul_spec.
  destruct (Prim2SF x) as [sx|sx| |sx mx ex], (Prim2SF y) as [sy|sy| |sy my ey];
    try discriminate; intros _; reflexivity.
Qed.

Lemma div_not_finite (x y : float) : is_finite x = false → is_finite (x / y) = false.
Proof.
  rewrite !is_finite_spec, div_spec.
  destruct (Prim2SF x) as [sx|sx| |sx mx ex], (Prim2SF y) as [sy|sy| |sy my ey];
    try discriminate; intros _; reflexivity.
Qed.

Lemma mul_nan_l (y : float) : nan * y = nan.
Proof.
  apply Prim2SF_inj. rewrite mul_spec. change (Prim2SF nan) with S754_nan.
  destruct (Prim2SF y); reflexivity.
Qed.

Lemma mul_nan_r (x : float) : x * nan = nan.
Proof.
  apply Prim2SF_inj. rewrite mul_spec. change (Prim2SF nan) with S754_nan.
  destruct (Prim2SF x); reflexivity.
Qed.

Lemma add_nan_r (x : float) : x + nan = nan.
Proof.
  apply Prim2SF_inj. rewrite add_spec. change (Prim2SF nan) with S754_nan.
  destruct (Prim2SF x); reflexivity.
Qed.

Lemma sqrt_negative (x : float) : (x <? 0) = true → PrimFloat.sqrt x = nan.
Proof.
  rewrite ltb_spec. intros H. apply Prim2SF_inj. rewrite sqrt_spec.
  change (Prim2SF 0) with (S754_zero false) in H. unfold SFltb in H.
  destruct (Prim2SF x) as [s|s| |s m e]; try discriminate;
    destruct s; try discriminate; reflexivity.
Qed.

(** Zeros. *)
Lemma sub_diag (x : float) : is_finite x = true → x - x = 0.
Proof.
  rewrite is_finite_spec. intros H. apply Prim2SF_inj. rewrite sub_spec.
  destruct (Prim2SF x) as [s|s| |s m e]; try discriminate.
  - destruct s; reflexivity.
  - unfold SF64sub, SFsub. rewrite Z.sub_diag. reflexivity.
Qed.

(** A finite number times zero is a zero. *)
Lemma mul_zero_r (x : float) : is_finite x = true → x * 0 = 0 ∨ x * 0 = -0.
Proof.
  rewrite is_finite_spec. intros H.
  assert (E : ∃ s, Prim2SF (x * 0) = S754_zero s).
  { rewrite mul_spec. change (Prim2SF 0) with (S754_zero false).
    destruct (Prim2SF x) as [s|s| |s m e]; try discriminate; eexists; reflexivity. }
  destruct E as [[|] E]; [right | left]; apply Prim2SF_inj; rewrite E; reflexivity.
Qed.

Lemma ltb_infinity (x : float) : (x <? infinity) = false → x = nan ∨ x = infinity.
Proof.
  rewrite ltb_spec. change (Prim2SF infinity) with (S754_infinity false). unfold SFltb.
  destruct (Prim2SF x) as [s|s| |s m e] eqn:E; try discriminate.
  - destruct s; [discriminate|]. intros _. right. apply Prim2SF_inj. rewrite E. reflexivity.
  - intros _. left. apply Prim2SF_inj. rewrite E. reflexivity.
Qed.

Lemma leb_of_not_ltb (x y : float) :
  (x <? y) = false → x ≠ nan → y ≠ nan → (y <=? x) = true.
Proof.
  rewrite ltb_spec, leb_spec. intros H Hx Hy.
  assert (Hx' : Prim2SF x ≠ S754_nan) by (intros E; apply Hx, Prim2SF_nan, E).
  assert (Hy' : Prim2SF y ≠ S754_nan) by (intros E; apply Hy, Prim2SF_nan, E).
  revert H Hx' Hy'. unfold SFltb, SFleb.
  destruct (Prim2SF x) as [sx|sx| |sx mx ex], (Prim2SF y) as [sy|sy| |sy my ey];
    simpl; try congruence; try reflexivity;
    try (destruct sx; try discriminate; reflexivity);
    try (destruct sy; try discriminate; reflexivity);
    destruct sx, sy; try discriminate; try reflexivity; intros H _ _; compare_cases.
Qed.

End FloatFacts.

(** ** The haversine distance on binary64 numbers *)

Module Binary64DistanceFacts.
Import Binary64.StreamMap Spec64 Examples64 FloatFacts.
Open Scope float_scope.

Section Distance.
Variable M : Math.

(** The clauses of [Math] on arguments that are not finite. *)
Lemma sin_not_finite (x : float) : is_finite x = false → sin M x = nan.
Proof.
  intros H. destruct (not_finite_cases x H) as [-> | [-> | ->]];
    [apply sin_NaN | apply sin_Infinity | apply sin_Infinity].
Qed.

Lemma cos_not_finite (x : float) : is_finite x = false → cos M x = nan.
Proof.
  intros H. destruct (not_finite_cases x H) as [-> | [-> | ->]];
    [apply cos_NaN | apply cos_Infinity | apply cos_Infinity].
Qed.

(** The distance in terms of [a]. *)
Lemma binary64_distance_unfold (lat1 lon1 lat2 lon2 : float) :
  calculateDistance M lat1 lon1 lat2 lon2
  = 6371000 * (2 * atan2 M (PrimFloat.sqrt (haversineTerm M lat1 lon1 lat2 lon2))
                         (PrimFloat.sqrt (1 - haversineTerm M lat1 lon1 lat2 lon2))).
Proof. reflexivity. Qed.

Lemma binary64_distance_nan_term (lat1 lon1 lat2 lon2 : float) :
  haversineTerm M lat1 lon1 lat2 lon2 = nan → calculateDistance M lat1 lon1 lat2 lon2 = nan.
Proof.
  intros H. rewrite binary64_distance_unfold, H.
  replace (PrimFloat.sqrt nan) with nan by reflexivity.
  rewrite (proj1 (atan2_NaN M _)). reflexivity.
Qed.

(** The square root of a negative [1 - a] is [NaN]. *)
Lemma binary64_distance_negative_root (lat1 lon1 lat2 lon2 : float) :
  (1 - haversineTerm M lat1 lon1 lat2 lon2 <? 0) = true →
  calculateDistance M lat1 lon1 lat2 lon2 = nan.
Proof.
  intros H. rewrite binary64_distance_unfold, (sqrt_negative _ H).
  rewrite (proj2 (atan2_NaN M _)). reflexivity.
Qed.

(** A coordinate that is not finite makes [a], and the distance,
    [NaN]. *)
Lemma binary64_distance_not_finite (lat1 lon1 lat2 lon2 : float) :
  is_finite lat1 && is_finite lon1 && is_finite lat2 && is_finite lon2 = false →
  calculateDistance M lat1 lon1 lat2 lon2 = nan.
Proof.
  intros H. apply binary64_distance_nan_term. unfold haversineTerm.
  destruct (is_finite lat1) eqn:H1.
  2:{ rewrite (cos_not_finite (lat1 * PI / 180)) by (apply div_not_finite, mul_not_finite, H1).
      rewrite !mul_nan_l. apply add_nan_r. }
  destruct (is_finite lat2) eqn:H2.
  2:{ rewrite (cos_not_finite (lat2 * PI / 180)) by (apply div_not_finite, mul_not_finite, H2).
      rewrite mul_nan_r, !mul_nan_l. apply add_nan_r. }
  assert (Hlon : is_finite lon2 && is_finite lon1 = false).
  { destruct (is_finite lon1), (is_finite lon2); try reflexivity; discriminate. }
  rewrite (sin_not_finite ((lon2 - lon1) * PI / 180 / 2))
    by (apply div_not_finite, div_not_finite, mul_not_finite, sub_not_finite, Hlon).
  rewrite !mul_nan_r. apply add_nan_r.
Qed.

(** Two identical points. *)
Lemma binary64_distance_same (lat lon : float) :
  is_finite lat = true → is_finite lon = true →
  is_finite (cos M (lat * PI / 180) * cos M (lat * PI / 180)) = true →
  calculateDistance M lat lon lat lon = 0.
Proof.
  intros Hlat Hlon Hcos.
  assert (Ha : haversineTerm M lat lon lat lon = 0).
  { unfold haversineTerm. rewrite (sub_diag lat Hlat), (sub_diag lon Hlon).
    replace (0 * PI / 180 / 2) with 0 by reflexivity. rewrite (sin_zero M).
    destruct (mul_zero_r _ Hcos) as [-> | ->]; reflexivity. }
  rewrite binary64_distance_unfold, Ha.
  replace (PrimFloat.sqrt 0) with 0 by reflexivity.
  replace (PrimFloat.sqrt (1 - 0)) with 1 by reflexivity.
  rewrite (atan2_zero M 1 eq_refl). reflexivity.
Qed.

End Distance.

(** Evaluate the arguments given to [Math.sin] and [Math.cos]. *)
Ltac compute_arguments :=
  repeat match goal with
  | |- context [sin ?M ?x] => let v := eval vm_compute in x in progress (change x with v)
  | |- context [cos ?M ?x] => let v := eval vm_compute in x in progress (change x with v)
  end.

(** Latitude 8, longitude 0 against latitude -8, longitude 180, with
    the correctly rounded values of the sines and cosines. *)
Lemma opposite_term (M : Math) :
  sin M (-0x1.1df46a2529d39p-3) = -0x1.1d06c968d9e19p-3 →
  cos M 0x1.1df46a2529d39p-3 = 0x1.fb046a930947ap-1 →
  cos M (-0x1.1df46a2529d39p-3) = 0x1.fb046a930947ap-1 →
  sin M 0x1.921fb54442d18p+0 = 1 →
  haversineTerm M 8 0 (-8) 180 = 0x1.0000000000001p+0.
Proof.
  intros H1 H2 H3 H4. unfold haversineTerm. cbv zeta. compute_arguments.
  rewrite H1, H2, H3, H4. reflexivity.
Qed.

Lemma opposite_distance (M : Math) :
  sin M (-0x1.1df46a2529d39p-3) = -0x1.1d06c968d9e19p-3 →
  cos M 0x1.1df46a2529d39p-3 = 0x1.fb046a930947ap-1 →
  cos M (-0x1.1df46a2529d39p-3) = 0x1.fb046a930947ap-1 →
  sin M 0x1.921fb54442d18p+0 = 1 →
  calculateDistance M 8 0 (-8) 180 = nan.
Proof.
  intros H1 H2 H3 H4. apply binary64_distance_negative_root.
  rewrite (opposite_term M H1 H2 H3 H4). reflexivity.
Qed.

(** [2^1023 * Math.PI] overflows to [Infinity], whose sine is [NaN]. *)
Lemma farOut_distance (M : Math) : calculateDistance M 0 0 0 0x1p+1023 = nan.
Proof.
  apply binary64_distance_nan_term. unfold haversineTerm. cbv zeta. compute_arguments.
  match goal with
  | |- context [sin M ?x] =>
      replace (sin M x) with nan by (symmetry; apply sin_not_finite; reflexivity)
  end.
  rewrite !mul_nan_r. apply add_nan_r.
Qed.

(** C8.  [calculateDistance] evaluates the haversine formula with
    radius 6,371,000 m, [R * c] with
    [a = sin²(Δφ/2) + cos φ1 · cos φ2 · sin²(Δλ/2)] and
    [c = 2 · atan2(√a, √(1−a))].  In exact arithmetic the formula gives,
    for every two points, the great-circle distance: the radius times
    the central angle.  The code evaluates it on binary64 numbers.
    There the result is [NaN] when a coordinate is not finite, when [a]
    is [NaN], and when the difference [1 − a] comes out negative; for
    two identical points it is [+0], provided the product of the two
    cosines is finite. *)
Theorem calculateDistance_is_haversine :
  (∀ lat1 lon1 lat2 lon2 : R,
     StreamMap.calculateDistance lat1 lon1 lat2 lon2
     = (6371000 * Spec.centralAngle (Spec.radians lat1) (Spec.radians lon1)
                                    (Spec.radians lat2) (Spec.radians lon2))%R)
  ∧ ∀ (M : Math) (lat1 lon1 lat2 lon2 : float),
      let a := haversineTerm M lat1 lon1 lat2 lon2 in
      calculateDistance M lat1 lon1 lat2 lon2
      = 6371000 * (2 * atan2 M (PrimFloat.sqrt a) (PrimFloat.sqrt (1 - a)))
      ∧ (is_finite lat1 && is_finite lon1 && is_finite lat2 && is_finite lon2 = false →
         calculateDistance M lat1 lon1 lat2 lon2 = nan)
      ∧ (a = nan → calculateDistance M lat1 lon1 lat2 lon2 = nan)
      ∧ ((1 - a <? 0) = true → calculateDistance M lat1 lon1 lat2 lon2 = nan)
      ∧ (lat2 = lat1 → lon2 = lon1 →
         is_finite lat1 = true → is_finite lon1 = true →
         is_finite (cos M (lat1 * PI / 180) * cos M (lat1 * PI / 180)) = true →
         calculateDistance M lat1 lon1 lat2 lon2 = 0).
Proof.
  split.
  - intros lat1 lon1 lat2 lon2.
    rewrite HaversineFacts.calculateDistance_unfold. apply HaversineFacts.haversine_central_angle.
  - intros M lat1 lon1 lat2 lon2 a. subst a.
    split; [apply binary64_distance_unfold|].
    split; [apply binary64_distance_not_finite|].
    split; [apply binary64_distance_nan_term|].
    split; [apply binary64_distance_negative_root|].
    intros -> ->. apply binary64_distance_same.
Qed.

(** In exact arithmetic two opposite points are half the circumference
    apart. *)
Lemma opposite_points_exact (lat : R) :
  StreamMap.calculateDistance lat 0 (- lat) 180 = (6371000 * Rtrigo1.PI)%R.
Proof.
  rewrite HaversineFacts.calculateDistance_unfold, HaversineFacts.haversine_central_angle.
  unfold Spec.centralAngle, Spec.radians. f_equal.
  replace (- lat * Rtrigo1.PI / 180)%R with (- (lat * Rtrigo1.PI / 180))%R by lra.
  replace (180 * Rtrigo1.PI / 180 - 0 * Rtrigo1.PI / 180)%R with Rtrigo1.PI by lra.
  rewrite sin_neg, cos_neg, cos_PI.
  pose proof (sin2_cos2 (lat * Rtrigo1.PI / 180)) as H. unfold Rsqr in H.
  match goal with
  | |- acos ?x = _ => replace x with (Ropp 1%R) by lra
  end.
  rewrite acos_opp, acos_1. lra.
Qed.

(** The points at latitude 8, longitude 0 and at latitude -8, longitude
    180 lie opposite each other: their great-circle distance is half
    the circumference.  With a [Math] that rounds the four values it
    needs correctly, [a] comes out as [1 + 2^-52], so [1 - a] is
    negative and the code returns [NaN].  The power-series [Math] does
    the same at latitude 72.  With any [Math], a longitude of [2^1023]
    degrees gives [NaN]: the conversion to radians overflows. *)
Lemma calculateDistance_opposite_points_NaN :
  StreamMap.calculateDistance 8 0 (-8) 180 = (6371000 * Rtrigo1.PI)%R
  ∧ (∀ M : Math,
       sin M (-0x1.1df46a2529d39p-3) = -0x1.1d06c968d9e19p-3 →
       cos M 0x1.1df46a2529d39p-3 = 0x1.fb046a930947ap-1 →
       cos M (-0x1.1df46a2529d39p-3) = 0x1.fb046a930947ap-1 →
       sin M 0x1.921fb54442d18p+0 = 1 →
       haversineTerm M 8 0 (-8) 180 = 0x1.0000000000001p+0
       ∧ calculateDistance M 8 0 (-8) 180 = nan)
  ∧ StreamMap.calculateDistance 72 0 (-72) 180 = (6371000 * Rtrigo1.PI)%R
  ∧ haversineTerm seriesMath 72 0 (-72) 180 = 0x1.0000000000001p+0
  ∧ calculateDistance seriesMath 72 0 (-72) 180 = nan
  ∧ (∀ M : Math, calculateDistance M 0 0 0 0x1p+1023 = nan).
Proof.
  split; [apply (opposite_points_exact 8)|]. split.
  { intros M H1 H2 H3 H4.
    split; [apply opposite_term | apply opposite_distance]; assumption. }
  split; [apply (opposite_points_exact 72)|].
  split; [vm_compute; reflexivity|]. split; [vm_compute; reflexivity|].
  apply farOut_distance.
Qed.

End Binary64DistanceFacts.

(** ** The nearest-transect locator on binary64 numbers *)

Module Binary64LocatorFacts.
Import Binary64.StreamMap Spec64 Examples64 FloatFacts Binary64DistanceFacts.
Open Scope float_scope.

Section Folds.
Variable M : Math.
Variables mouseLat mouseLng : float.

(** The inner loop as a fold over the distances. *)
Lemma binary64_localMinOf_fold (coords : list (float * float)) :
  localMinOf M mouseLat mouseLng coords
  = List.fold_left keepLess
      (List.map (fun coord : float * float =>
                   calculateDistance M mouseLat mouseLng coord.2 coord.1) coords)
      infinity.
Proof.
  unfold localMinOf. generalize infinity.
  induction coords as [|[lon lat] coords IH]; intros b; simpl; [reflexivity|]. apply IH.
Qed.

(** The least of the distances that are below the starting value. *)
Lemma keepLess_fold (ds : list float) (b : float) :
  let m := List.fold_left keepLess ds b in
  (m = b ∧ ∀ d, In d ds → (d <? b) = false)
  ∨ (In m ds ∧ (m <? b) = true ∧ ∀ d, In d ds → (d <? m) = false).
Proof.
  revert b. induction ds as [|d ds IH]; intros b; simpl.
  - left. split; [reflexivity | intros d []].
  - destruct (d <? b) eqn:E.
    + assert (Hk : keepLess b d = d) by (unfold keepLess; rewrite E; reflexivity).
      rewrite Hk. right. destruct (IH d) as [[Hm Hall] | (Hin & Hlt & Hall)].
      * rewrite Hm. split; [left; reflexivity|]. split; [exact E|].
        intros e [<-|He]; [apply ltb_irrefl | apply Hall, He].
      * split; [right; exact Hin|]. split; [exact (ltb_trans _ _ _ Hlt E)|].
        intros e [<-|He]; [|apply Hall, He].
        destruct (d <? fold_left keepLess ds d) eqn:E'; [|reflexivity].
        pose proof (ltb_trans _ _ _ Hlt E') as Habs. rewrite ltb_irrefl in Habs. discriminate.
    + assert (Hk : keepLess b d = b) by (unfold keepLess; rewrite E; reflexivity).
      rewrite Hk. destruct (IH b) as [[Hm Hall] | (Hin & Hlt & Hall)].
      * left. split; [exact Hm|]. intros e [<-|He]; [exact E | apply Hall, He].
      * right. split; [right; exact Hin|]. split; [exact Hlt|].
        intros e [<-|He]; [|apply Hall, He].
        destruct (d <? fold_left keepLess ds b) eqn:E'; [|reflexivity].
        rewrite (ltb_trans _ _ _ E' Hlt) in E. discriminate.
Qed.

Lemma binary64_localMinOf_spec (f : TransectFeature) :
  let m := transectMin M mouseLat mouseLng f in
  let ds := vertexDistances M mouseLat mouseLng f in
  (m = infinity ∧ ∀ d, In d ds → (d <? infinity) = false)
  ∨ (In m ds ∧ (m <? infinity) = true ∧ ∀ d, In d ds → (d <? m) = false).
Proof. cbv zeta. unfold transectMin. rewrite binary64_localMinOf_fold. apply keepLess_fold. Qed.

Lemma binary64_localMinOf_not_nan (f : TransectFeature) :
  transectMin M mouseLat mouseLng f ≠ nan.
Proof.
  destruct (binary64_localMinOf_spec f) as [[-> _] | (_ & Hlt & _)]; [discriminate|].
  apply (ltb_not_nan _ _ Hlt).
Qed.

End Folds.

Section Outer.
Variable M : Math.
Variables mouseLat mouseLng : float.

(** The outer loop from any state [(c, b)]: either no transect is
    below [b], or the first transect with the least [localMin] wins. *)
Lemma binary64_visit_fold (fs : list TransectFeature) (c : option TransectFeature) (b : float) :
  b ≠ nan →
  let r := List.fold_left (visit M mouseLat mouseLng) fs (c, b) in
  (r = (c, b) ∧ ∀ g, In g fs → (transectMin M mouseLat mouseLng g <? b) = false)
  ∨ ∃ (i : nat) f,
      fs !! i = Some f
      ∧ r = (Some f, transectMin M mouseLat mouseLng f)
      ∧ (transectMin M mouseLat mouseLng f <? b) = true
      ∧ (∀ g, In g fs →
           (transectMin M mouseLat mouseLng g <? transectMin M mouseLat mouseLng f) = false)
      ∧ (∀ (j : nat) g, (j < i)%nat → fs !! j = Some g →
           (transectMin M mouseLat mouseLng f <? transectMin M mouseLat mouseLng g) = true).
Proof.
  revert c b. induction fs as [|g fs IH]; intros c b Hb; simpl.
  - left. split; [reflexivity | intros g []].
  - assert (Hg : transectMin M mouseLat mouseLng g ≠ nan) by apply binary64_localMinOf_not_nan.
    destruct (transectMin M mouseLat mouseLng g <? b) eqn:E.
    + assert (Hv : visit M mouseLat mouseLng (c, b) g = (Some g, transectMin M mouseLat mouseLng g)).
      { unfold visit. change (localMinOf M mouseLat mouseLng (coordinates (geometry g))) with (transectMin M mouseLat mouseLng g).
        simpl. rewrite E. reflexivity. }
      rewrite Hv. right.
      destruct (IH (Some g) (transectMin M mouseLat mouseLng g) Hg) as [[Hr Hall] | (i & f & Hi & Hr & Hlt & Hall & Hfirst)].
      * exists 0%nat, g. split; [reflexivity|]. split; [exact Hr|]. split; [exact E|].
        split; [|intros j g' Hj; lia].
        intros g' [<-|Hg']; [apply ltb_irrefl | apply Hall, Hg'].
      * exists (S i), f. split; [exact Hi|]. split; [exact Hr|].
        split; [exact (ltb_trans _ _ _ Hlt E)|]. split.
        -- intros g' [<-|Hg']; [|apply Hall, Hg'].
           destruct (transectMin M mouseLat mouseLng g <? transectMin M mouseLat mouseLng f) eqn:E'; [|reflexivity].
           pose proof (ltb_trans _ _ _ Hlt E') as Habs. rewrite ltb_irrefl in Habs. discriminate.
        -- intros [|j] g' Hj Hg'; simpl in Hg'.
           ++ injection Hg' as <-. exact Hlt.
           ++ apply (Hfirst j g'); [lia | exact Hg'].
    + assert (Hv : visit M mouseLat mouseLng (c, b) g = (c, b)).
      { unfold visit. change (localMinOf M mouseLat mouseLng (coordinates (geometry g))) with (transectMin M mouseLat mouseLng g).
        simpl. rewrite E. reflexivity. }
      rewrite Hv.
      destruct (IH c b Hb) as [[Hr Hall] | (i & f & Hi & Hr & Hlt & Hall & Hfirst)].
      * left. split; [exact Hr|]. intros g' [<-|Hg']; [exact E | apply Hall, Hg'].
      * right. exists (S i), f. split; [exact Hi|]. split; [exact Hr|].
        split; [exact Hlt|]. split.
        -- intros g' [<-|Hg']; [|apply Hall, Hg'].
           destruct (transectMin M mouseLat mouseLng g <? transectMin M mouseLat mouseLng f) eqn:E'; [|reflexivity].
           rewrite (ltb_trans _ _ _ E' Hlt) in E. discriminate.
        -- intros [|j] g' Hj Hg'; simpl in Hg'.
           ++ injection Hg' as <-. exact (ltb_notlt_trans _ _ _ Hlt E Hg).
           ++ apply (Hfirst j g'); [lia | exact Hg'].
Qed.

(** A distance that is a number comes from finite coordinates. *)
Lemma distance_number_finite (lat lon d : float) :
  d = calculateDistance M mouseLat mouseLng lat lon → d ≠ nan →
  is_finite mouseLat = true ∧ is_finite mouseLng = true
  ∧ is_finite lat = true ∧ is_finite lon = true.
Proof.
  intros -> Hd.
  destruct (is_finite mouseLat && is_finite mouseLng && is_finite lat && is_finite lon) eqn:E.
  - apply andb_prop in E as [E H4]. apply andb_prop in E as [E H3].
    apply andb_prop in E as [H1 H2]. auto.
  - exfalso. apply Hd, binary64_distance_not_finite, E.
Qed.

(** What the locator returns, in terms of the distances of the
    positions. *)
Lemma binary64_findClosestTransect_spec (transectData : option TransectData) :
  match findClosestTransect M transectData mouseLat mouseLng with
  | Some f =>
      ∃ (data : TransectData) (i : nat) (lon lat d : float),
        transectData = Some data
        ∧ features data !! i = Some f
        ∧ In (lon, lat) (coordinates (geometry f))
        ∧ d = calculateDistance M mouseLat mouseLng lat lon
        ∧ (d <? infinity) = true
        ∧ is_finite mouseLat = true ∧ is_finite mouseLng = true
        ∧ is_finite lat = true ∧ is_finite lon = true
        ∧ (∀ g e, In g (features data) → In e (vertexDistances M mouseLat mouseLng g) →
             (e <? d) = false ∧ (e = nan ∨ (d <=? e) = true))
        ∧ (∀ (j : nat) g e, (j < i)%nat → features data !! j = Some g →
             In e (vertexDistances M mouseLat mouseLng g) → e = nan ∨ (d <? e) = true)
  | None =>
      transectData = None
      ∨ ∃ data, transectData = Some data
                ∧ ∀ g e, In g (features data) →
                    In e (vertexDistances M mouseLat mouseLng g) → e = nan ∨ e = infinity
  end.
Proof.
  destruct transectData as [data|]; [|left; reflexivity]. simpl.
  assert (Hinf : infinity ≠ nan) by discriminate.
  destruct (binary64_visit_fold (features data) None infinity Hinf)
    as [[Hr Hall] | (i & f & Hi & Hr & Hlt & Hall & Hfirst)]; rewrite Hr; simpl.
  - right. exists data. split; [reflexivity|]. intros g e Hg He.
    apply ltb_infinity.
    destruct (binary64_localMinOf_spec M mouseLat mouseLng g) as [[_ Hds] | (_ & Hlt & _)].
    + apply Hds, He.
    + rewrite (Hall g Hg) in Hlt. discriminate.
  - destruct (binary64_localMinOf_spec M mouseLat mouseLng f) as [[Hm _] | (Hin & _ & Hmin)].
    { rewrite Hm in Hlt. discriminate. }
    
    unfold vertexDistances in Hin. apply List.in_map_iff in Hin as ([lon lat] & Hd & Hpos).
    simpl in Hd.
    assert (Hnum : transectMin M mouseLat mouseLng f ≠ nan) by apply binary64_localMinOf_not_nan.
    destruct (distance_number_finite lat lon (transectMin M mouseLat mouseLng f) (eq_sym Hd) Hnum) as (F1 & F2 & F3 & F4).
    exists data, i, lon, lat, (transectMin M mouseLat mouseLng f).
    split; [reflexivity|]. split; [exact Hi|]. split; [exact Hpos|].
    split; [symmetry; exact Hd|]. split; [exact Hlt|].
    split; [exact F1|]. split; [exact F2|]. split; [exact F3|]. split; [exact F4|].
    assert (Hglobal : ∀ g e, In g (features data) →
              In e (vertexDistances M mouseLat mouseLng g) → (e <? transectMin M mouseLat mouseLng f) = false).
    { intros g e Hg He.
      destruct (e <? transectMin M mouseLat mouseLng f) eqn:E; [|reflexivity].
      assert (Hg' : transectMin M mouseLat mouseLng g ≠ nan) by apply binary64_localMinOf_not_nan.
      pose proof (ltb_notlt_trans _ _ _ E (Hall g Hg) Hg') as Hlow.
      destruct (binary64_localMinOf_spec M mouseLat mouseLng g) as [[Hm Hds] | (_ & _ & Hds)].
      - rewrite Hm in Hlow. rewrite (Hds e He) in Hlow. discriminate.
      - rewrite (Hds e He) in Hlow. discriminate. }
    split.
    + intros g e Hg He. split; [exact (Hglobal g e Hg He)|].
      destruct (Leibniz.eqb e nan) eqn:En.
      * left. apply FloatAxioms.Leibniz.eqb_spec, En.
      * right. apply leb_of_not_ltb; [exact (Hglobal g e Hg He) | | exact Hnum].
        intros ->. rewrite (proj2 (FloatAxioms.Leibniz.eqb_spec nan nan) eq_refl) in En.
        discriminate.
    + intros j g e Hj Hgj He.
      destruct (Leibniz.eqb e nan) eqn:En.
      * left. apply FloatAxioms.Leibniz.eqb_spec, En.
      * right.
        assert (He' : e ≠ nan).
        { intros ->. rewrite (proj2 (FloatAxioms.Leibniz.eqb_spec nan nan) eq_refl) in En.
          discriminate. }
        assert (Hg' : transectMin M mouseLat mouseLng g ≠ nan) by apply binary64_localMinOf_not_nan.
        pose proof (Hfirst j g Hj Hgj) as Hfg.
        destruct (binary64_localMinOf_spec M mouseLat mouseLng g) as [[Hm Hds] | (_ & _ & Hds)].
        -- rewrite Hm in Hfg.
           apply (ltb_notlt_trans _ _ _ Hfg (Hds e He) He').
        -- apply (ltb_notlt_trans _ _ _ Hfg (Hds e He) He').
Qed.

End Outer.

(** The locator runs: with the power-series [Math], a mouse on the
    first position of the southern transect finds that transect. *)
Example findClosestTransect_runs :
  findClosestTransect seriesMath (Some {| features := [north; south] |}) 20.5 71.25
  = Some south.
Proof. vm_compute. reflexivity. Qed.

(** C1.  The locator returns none when no transect data is loaded, and
    when the loaded collection has no transect.  When it returns a
    transect, that transect is in the loaded collection and one of its
    positions is at a distance [d] from the mouse that is a number
    below [Infinity]; the mouse and that position have finite
    coordinates; no position of any transect is at a distance below
    [d], so [d] is the least of all the distances that are numbers (the
    global minimum; a distance that is [NaN] compares with nothing and
    is passed over); and every transect before it in iteration order
    has all its positions strictly farther than [d], or at a distance
    [NaN]: among transects that tie at the minimum the first one is
    returned.  It returns none only when nothing is loaded or every
    position of every transect is at a distance [NaN] or [Infinity],
    which includes the collections without positions. *)
Theorem findClosestTransect_global_minimum (M : Math)
    (transectData : option TransectData) (mouseLat mouseLng : float) :
  findClosestTransect M None mouseLat mouseLng = None
  ∧ findClosestTransect M (Some {| features := [] |}) mouseLat mouseLng = None
  ∧ match findClosestTransect M transectData mouseLat mouseLng with
    | Some f =>
        ∃ (data : TransectData) (i : nat) (lon lat d : float),
          transectData = Some data
          ∧ features data !! i = Some f
          ∧ In (lon, lat) (coordinates (geometry f))
          ∧ d = calculateDistance M mouseLat mouseLng lat lon
          ∧ (d <? infinity) = true
          ∧ is_finite mouseLat = true ∧ is_finite mouseLng = true
          ∧ is_finite lat = true ∧ is_finite lon = true
          ∧ (∀ g e, In g (features data) → In e (vertexDistances M mouseLat mouseLng g) →
               (e <? d) = false ∧ (e = nan ∨ (d <=? e) = true))
          ∧ (∀ (j : nat) g e, (j < i)%nat → features data !! j = Some g →
               In e (vertexDistances M mouseLat mouseLng g) → e = nan ∨ (d <? e) = true)
    | None =>
        transectData = None
        ∨ ∃ data, transectData = Some data
                  ∧ ∀ g e, In g (features data) →
                      In e (vertexDistances M mouseLat mouseLng g) → e = nan ∨ e = infinity
    end.
Proof.
  split; [reflexivity|]. split; [reflexivity | apply binary64_findClosestTransect_spec].
Qed.

(** A transect is loaded and has a position, and the locator returns
    none: the mouse is at latitude 8, longitude 0 and the position lies
    opposite, where the distance is [NaN] (with a [Math] that rounds
    the four values it needs correctly); the same at latitude 72 with
    the power-series [Math]; or the position has a longitude of
    [2^1023] degrees (with any [Math]). *)
Lemma findClosestTransect_none_with_positions :
  coordinates (geometry opposite) = [(180, -8)]
  ∧ (∀ M : Math,
       sin M (-0x1.1df46a2529d39p-3) = -0x1.1d06c968d9e19p-3 →
       cos M 0x1.1df46a2529d39p-3 = 0x1.fb046a930947ap-1 →
       cos M (-0x1.1df46a2529d39p-3) = 0x1.fb046a930947ap-1 →
       sin M 0x1.921fb54442d18p+0 = 1 →
       findClosestTransect M (Some {| features := [opposite] |}) 8 0 = None)
  ∧ coordinates (geometry opposite72) = [(180, -72)]
  ∧ findClosestTransect seriesMath (Some {| features := [opposite72] |}) 72 0 = None
  ∧ coordinates (geometry farOut) = [(0x1p+1023, 0)]
  ∧ (∀ M : Math, findClosestTransect M (Some {| features := [farOut] |}) 0 0 = None).
Proof.
  split; [reflexivity|]. split.
  { intros M H1 H2 H3 H4.
    unfold findClosestTransect, visit, localMinOf, opposite. cbn -[calculateDistance].
    rewrite (opposite_distance M H1 H2 H3 H4). reflexivity. }
  split; [reflexivity|]. split; [vm_compute; reflexivity|]. split; [reflexivity|].
  intros M.
  unfold findClosestTransect, visit, localMinOf, farOut. cbn -[calculateDistance].
  rewrite (farOut_distance M). reflexivity.
Qed.

End Binary64LocatorFacts.

(** ** More on the locator and the handler *)

Module LocatorOrderFacts.
Import JsNumber StreamMap Spec HaversineFacts LocatorFacts.
Open Scope R_scope.

(** The least distance depends on the positions of a line, not on
    their order. *)
Lemma localMinOf_permutation (mouseLat mouseLng : R) (f g : TransectFeature) :
  Permutation (coordinates (geometry f)) (coordinates (geometry g)) →
  localMinOf mouseLat mouseLng (coordinates (geometry f))
  = localMinOf mouseLat mouseLng (coordinates (geometry g)).
Proof.
  intros Hperm.
  assert (Hds : Permutation (vertexDistances mouseLat mouseLng f)
                            (vertexDistances mouseLat mouseLng g)).
  { unfold vertexDistances. apply Permutation_map, Hperm. }
  pose proof (localMinOf_spec mouseLat mouseLng f) as Hf.
  pose proof (localMinOf_spec mouseLat mouseLng g) as Hg.
  destruct (localMinOf mouseLat mouseLng (coordinates (geometry f))) as [|a],
           (localMinOf mouseLat mouseLng (coordinates (geometry g))) as [|b].
  - reflexivity.
  - destruct Hg as [Hin _]. rewrite Hf in Hds.
    apply Permutation_nil in Hds. rewrite Hds in Hin. destruct Hin.
  - destruct Hf as [Hin _]. rewrite Hg in Hds.
    apply Permutation_sym, Permutation_nil in Hds. rewrite Hds in Hin. destruct Hin.
  - destruct Hf as [Hina Hlea], Hg as [Hinb Hleb]. f_equal.
    pose proof (Hlea b (Permutation_in _ (Permutation_sym Hds) Hinb)).
    pose proof (Hleb a (Permutation_in _ Hds Hina)). lra.
Qed.

(** X4.  The transect that the locator finds does not depend on the
    order in which the positions of each line are listed: reordering
    the positions inside the features reorders nothing in the answer. *)
Theorem findClosestTransect_ignores_vertex_order (reorder : TransectFeature → TransectFeature)
    (data : TransectData) (mouseLat mouseLng : R) :
  (∀ f, Permutation (coordinates (geometry f)) (coordinates (geometry (reorder f)))) →
  findClosestTransect (Some {| features := List.map reorder (features data) |})
                      mouseLat mouseLng
  = reorder <$> findClosestTransect (Some data) mouseLat mouseLng.
Proof.
  intros Hperm. unfold findClosestTransect. simpl features.
  assert (Hgen : ∀ fs closest best,
    List.fold_left (visit mouseLat mouseLng) (List.map reorder fs) (reorder <$> closest, best)
    = (λ acc, (reorder <$> acc.1, acc.2))
        (List.fold_left (visit mouseLat mouseLng) fs (closest, best))).
  { induction fs as [|f fs IH]; intros closest best; simpl; [reflexivity|].
    assert (Hstep : visit mouseLat mouseLng (reorder <$> closest, best) (reorder f)
                    = (reorder <$> (visit mouseLat mouseLng (closest, best) f).1,
                       (visit mouseLat mouseLng (closest, best) f).2)).
    { unfold visit. simpl.
      rewrite <- (localMinOf_permutation mouseLat mouseLng f (reorder f) (Hperm f)).
      destruct (below _ best); reflexivity. }
    rewrite Hstep.
    destruct (visit mouseLat mouseLng (closest, best) f) as [c b]. apply IH. }
  change (@None TransectFeature, Unbounded) with (reorder <$> @None TransectFeature, Unbounded) at 1.
  rewrite (Hgen (features data) None Unbounded). reflexivity.
Qed.

(** Every line of [Examples.crossing] listed from its other end. *)
Lemma findClosestTransect_ignores_vertex_order_witness :
  (∀ f, Permutation (coordinates (geometry f)) (coordinates (geometry (MoreExamples.reversed f))))
  ∧ findClosestTransect
      (Some {| features := List.map MoreExamples.reversed (features Examples.crossing) |}) 20.94 71.19
    = MoreExamples.reversed <$> findClosestTransect (Some Examples.crossing) 20.94 71.19.
Proof.
  assert (H : ∀ f, Permutation (coordinates (geometry f)) (coordinates (geometry (MoreExamples.reversed f))))
    by (intros f; apply Permutation_rev).
  exact (conj H (findClosestTransect_ignores_vertex_order MoreExamples.reversed Examples.crossing
                   20.94 71.19 H)).
Defined.

Lemma findClosestTransect_member (data : TransectData) (mouseLat mouseLng : R)
    (f : TransectFeature) :
  findClosestTransect (Some data) mouseLat mouseLng = Some f → In f (features data).
Proof.
  intros H. pose proof (findClosestTransect_spec (Some data) mouseLat mouseLng) as Hs.
  rewrite H in Hs. destruct Hs as (data' & i & d & [= <-] & Hi & _).
  apply list_elem_of_In, list_elem_of_lookup. eauto.
Qed.

Lemma strict_eq_refl (n : number) : isNaN n = false → strict_eq n n = true.
Proof.
  destruct n; simpl; try reflexivity; try discriminate.
  intros _. apply Qeq_bool_iff. reflexivity.
Qed.

(** X5.  When no transect of the collection has a [NaN] identifier, a
    mouse move leaves the component hovering a transect with the
    identifier of the closest one, so the same event handled again
    changes nothing and reports nothing. *)
Theorem handleMapMouseMove_settles (data : TransectData) (onActiveVertexChange : bool)
    (hoveredTransect : option TransectFeature) (e : LatLng) :
  Forall (fun f => isNaN (transect_id (properties f)) = false) (features data) →
  let first := handleMapMouseMove (Some data) onActiveVertexChange hoveredTransect e in
  let again := handleMapMouseMove (Some data) onActiveVertexChange (hovered first) e in
  id_differs (idOf (hovered first)) (idOf (findClosestTransect (Some data) (lat e) (lng e)))
  = false
  ∧ hovered again = hovered first
  ∧ calls again = [].
Proof.
  intros Hids first again. subst first again.
  unfold handleMapMouseMove.
  remember (findClosestTransect (Some data) (lat e) (lng e)) as closest eqn:Hc.
  assert (Hself : id_differs (idOf closest) (idOf closest) = false).
  { destruct closest as [f|]; simpl; [|reflexivity].
    symmetry in Hc. apply findClosestTransect_member in Hc.
    rewrite Forall_forall in Hids. apply list_elem_of_In in Hc.
    rewrite (strict_eq_refl _ (Hids f Hc)). reflexivity. }
  destruct (id_differs (idOf hoveredTransect) (idOf closest)) eqn:E; simpl hovered.
  - rewrite Hself. repeat split; reflexivity.
  - rewrite E. repeat split; reflexivity.
Qed.

(** Two moves to the crossing point of [Examples.crossing]. *)
Lemma handleMapMouseMove_settles_witness :
  Forall (fun f => isNaN (transect_id (properties f)) = false) (features Examples.crossing)
  ∧ calls (handleMapMouseMove (Some Examples.crossing) true
             (hovered (handleMapMouseMove (Some Examples.crossing) true None
                         {| lat := 20.94; lng := 71.19 |}))
             {| lat := 20.94; lng := 71.19 |}) = [].
Proof.
  assert (H : Forall (fun f => isNaN (transect_id (properties f)) = false)
                     (features Examples.crossing)) by (repeat constructor).
  exact (conj H (proj2 (proj2 (handleMapMouseMove_settles Examples.crossing true None
                                 {| lat := 20.94; lng := 71.19 |} H)))).
Defined.
End LocatorOrderFacts.

(** ** Line endings *)

Module LineEndingFacts.
Import JsNumber JsString JsGlobal JsObject Csv Spec CsvFacts ParseFacts CsvText.
Open Scope string_scope.

Lemma splitLines_plain (c : ascii) (s : string) :
  Ascii.eqb c LF = false → Ascii.eqb c CR = false →
  splitLines (String c s) = cons_first c (splitLines s).
Proof.
  intros H1 H2. simpl. rewrite H1, H2. destruct s; reflexivity.
Qed.

Lemma splitLines_unixEnd (s : string) :
  splitLines (unixEnd ++ s) = "" :: splitLines s.
Proof. reflexivity. Qed.

Lemma splitLines_windowsEnd (s : string) :
  splitLines (windowsEnd ++ s) = "" :: splitLines s.
Proof. reflexivity. Qed.

Lemma splitLines_line (l : string) : lineText l = true → splitLines l = [l].
Proof.
  induction l as [|c l IH]; [reflexivity|]. simpl lineText.
  intros H. apply andb_prop in H as [H Hl]. apply andb_prop in H as [H1 H2].
  apply negb_true_iff in H1, H2.
  rewrite (splitLines_plain c l H1 H2), (IH Hl). reflexivity.
Qed.

Lemma splitLines_line_then (l sep s : string) :
  lineText l = true → splitLines (sep ++ s) = "" :: splitLines s →
  splitLines (l ++ sep ++ s) = l :: splitLines s.
Proof.
  intros Hl Hsep. induction l as [|c l IH]; [exact Hsep|].
  simpl lineText in Hl. apply andb_prop in Hl as [H Hl]. apply andb_prop in H as [H1 H2].
  apply negb_true_iff in H1, H2.
  rewrite append_String, (splitLines_plain c _ H1 H2), (IH Hl). reflexivity.
Qed.

(** Splitting undoes joining, for either line ending. *)
Lemma splitLines_joinLines (sep first : string) (rest : list string) :
  (∀ s, splitLines (sep ++ s) = "" :: splitLines s) →
  lineText first = true → Forall (fun l => lineText l = true) rest →
  splitLines (joinLines sep first rest) = first :: rest.
Proof.
  intros Hsep Hfirst Hrest. revert first Hfirst.
  induction Hrest as [|l rest Hl _ IH]; intros first Hfirst; simpl.
  - apply splitLines_line, Hfirst.
  - rewrite (splitLines_line_then first sep _ Hfirst (Hsep _)), (IH l Hl). reflexivity.
Qed.

Lemma append_assoc (a b c : string) : (a ++ b) ++ c = a ++ b ++ c.
Proof. induction a as [|x a IH]; [reflexivity|]. rewrite !append_String, IH. reflexivity. Qed.

Lemma append_empty_r (a : string) : a ++ "" = a.
Proof. induction a as [|x a IH]; [reflexivity|]. rewrite append_String, IH. reflexivity. Qed.

Lemma joinLines_snoc (sep first : string) (rest : list string) :
  joinLines sep first rest ++ sep = joinLines sep first (rest ++ [""]).
Proof.
  revert first. induction rest as [|l rest IH]; intros first; simpl.
  - rewrite append_empty_r. reflexivity.
  - rewrite !append_assoc, IH. reflexivity.
Qed.

(** X6.  Splitting undoes joining: a file written with Windows line
    endings gives both loaders the same records as the file written
    with Unix line endings, and a line ending after the last line adds
    no record. *)
Theorem parseCsv_line_endings (first : string) (rest : list string) :
  lineText first = true → Forall (fun l => lineText l = true) rest →
  let unix := joinLines unixEnd first rest in
  let windows := joinLines windowsEnd first rest in
  splitLines unix = first :: rest
  ∧ splitLines windows = first :: rest
  ∧ TransectElevations.parseCsv windows = TransectElevations.parseCsv unix
  ∧ StreamElevations.parseCsv windows = StreamElevations.parseCsv unix
  ∧ TransectElevations.parseCsv (unix ++ unixEnd) = TransectElevations.parseCsv unix
  ∧ TransectElevations.parseCsv (windows ++ windowsEnd) = TransectElevations.parseCsv unix
  ∧ StreamElevations.parseCsv (unix ++ unixEnd) = StreamElevations.parseCsv unix
  ∧ StreamElevations.parseCsv (windows ++ windowsEnd) = StreamElevations.parseCsv unix.
Proof.
  intros Hfirst Hrest unix windows. subst unix windows.
  assert (Hrest' : Forall (fun l => lineText l = true) (rest ++ [""])).
  { apply Forall_app. split; [exact Hrest | repeat constructor]. }
  pose proof (splitLines_joinLines unixEnd first rest splitLines_unixEnd Hfirst Hrest) as Hu.
  pose proof (splitLines_joinLines windowsEnd first rest splitLines_windowsEnd Hfirst Hrest) as Hw.
  pose proof (splitLines_joinLines unixEnd first _ splitLines_unixEnd Hfirst Hrest') as Hu'.
  pose proof (splitLines_joinLines windowsEnd first _ splitLines_windowsEnd Hfirst Hrest') as Hw'.
  assert (Hlines : ∀ ls : list string, List.filter nonBlank (ls ++ [""]) = List.filter nonBlank ls).
  { intros ls. rewrite List.filter_app. simpl. apply List.app_nil_r. }
  unfold TransectElevations.parseCsv, StreamElevations.parseCsv, lines.
  rewrite !joinLines_snoc, Hu, Hw, Hu', Hw', List.app_comm_cons, !(Hlines (first :: rest)).
  repeat split; reflexivity.
Qed.

(** A header and two data lines. *)
Lemma parseCsv_line_endings_witness :
  lineText "vertex_id,elevation" = true
  ∧ Forall (fun l => lineText l = true) ["7,3.5"; "8,4"]
  ∧ StreamElevations.parseCsv (joinLines windowsEnd "vertex_id,elevation" ["7,3.5"; "8,4"])
    = StreamElevations.parseCsv (joinLines unixEnd "vertex_id,elevation" ["7,3.5"; "8,4"]).
Proof.
  assert (H1 : lineText "vertex_id,elevation" = true) by reflexivity.
  assert (H2 : Forall (fun l => lineText l = true) ["7,3.5"; "8,4"]) by (repeat constructor).
  exact (conj H1 (conj H2
    (proj1 (proj2 (proj2 (proj2
       (parseCsv_line_endings "vertex_id,elevation" ["7,3.5"; "8,4"] H1 H2))))))).
Defined.
End LineEndingFacts.

(** ** The fields of a record *)

Module RecordFacts.
Import JsNumber JsString JsGlobal JsObject Csv Spec CsvFacts ParseFacts CoercionFacts.
Open Scope string_scope.

(** X7.  The stream loader keeps every column: a record has a field for
    each header, holding the trimmed text of the column under the
    header (of the last one, when a header is repeated), parsed for the
    three numeric names and kept as a string otherwise. *)
Theorem stream_record_field (headers : list string) (line : string) (j : nat) (h : string) :
  h ≠ "__proto__" →
  headers !! j = Some h →
  (∀ (k : nat) h', (j < k)%nat → headers !! k = Some h' → h' ≠ h) →
  let text := match split "," line !! j with Some c => trim c | None => "" end in
  StreamElevations.parseLine headers line !! h
  = Some (if String.eqb h "vertex_id" then VNumber (parseInt text)
          else if String.eqb h "elevation_normalized_m" then VNumber (parseFloat text)
          else if String.eqb h "elevation" then VNumber (parseFloat text)
          else VString text).
Proof.
  intros Hproto Hj Hlast text.
  pose proof (rawFields_lookup headers line j h Hproto Hj Hlast) as Hraw. fold text in Hraw.
  destruct (stream_parseLine_fields headers line) as (H1 & H2 & H3).
  destruct (String.eqb h "vertex_id") eqn:E1.
  { apply String.eqb_eq in E1. subst h. rewrite H1, Hraw. reflexivity. }
  destruct (String.eqb h "elevation_normalized_m") eqn:E2.
  { apply String.eqb_eq in E2. subst h. rewrite H2, Hraw. reflexivity. }
  destruct (String.eqb h "elevation") eqn:E3.
  { apply String.eqb_eq in E3. subst h. rewrite H3, Hraw. reflexivity. }
  apply String.eqb_neq in E1, E2, E3.
  unfold StreamElevations.parseLine, StreamElevations.coerce.
  destruct (rawFields headers line !! "vertex_id"),
    (rawFields headers line !! "elevation_normalized_m"),
    (rawFields headers line !! "elevation");
    rewrite ?lookup_insert_ne by congruence;
    rewrite lookup_fmap, Hraw; reflexivity.
Qed.

Lemma stream_record_field_witness :
  "name" ≠ "__proto__"
  ∧ ["vertex_id"; "name"] !! 1%nat = Some "name"
  ∧ StreamElevations.parseLine ["vertex_id"; "name"] "7,  mill creek " !! "name"
    = Some (VString "mill creek").
Proof.
  assert (H1 : "name" ≠ "__proto__") by discriminate.
  assert (H2 : ["vertex_id"; "name"] !! 1%nat = Some "name") by reflexivity.
  assert (H3 : ∀ (k : nat) h', (1 < k)%nat → ["vertex_id"; "name"] !! k = Some h' → h' ≠ "name").
  { intros [|[|k]] h' Hk Hl; [lia | lia | discriminate]. }
  exact (conj H1 (conj H2
           (stream_record_field ["vertex_id"; "name"] "7,  mill creek " 1 "name" H1 H2 H3))).
Defined.

(** The field of a header in a record of the transect loader. *)
Lemma transect_field_of_header (headers : list string) (line : string) (j : nat) (h : string) :
  h ≠ "__proto__" →
  headers !! j = Some h →
  (∀ (k : nat) h', (j < k)%nat → headers !! k = Some h' → h' ≠ h) →
  let text := match split "," line !! j with Some c => trim c | None => "" end in
  TransectElevations.parseLine headers line !! h
  = Some (if String.eqb h "transect_id" then VNumber (parseInt text)
          else if String.eqb h "vertex_index" then VNumber (parseInt text)
          else if String.eqb h "elevation" then VNumber (parseFloat text)
          else if String.eqb h "dam" then
            (if isNaN (parseFloat text) then VUndefined else VNumber (parseFloat text))
          else VString text).
Proof.
  intros Hproto Hj Hlast text.
  pose proof (rawFields_lookup headers line j h Hproto Hj Hlast) as Hraw. fold text in Hraw.
  destruct (transect_parseLine_fields headers line) as (H1 & H2 & H3 & H4).
  unfold readText in H1, H2, H3.
  destruct (String.eqb h "transect_id") eqn:E1.
  { apply String.eqb_eq in E1. subst h. rewrite H1, Hraw. reflexivity. }
  destruct (String.eqb h "vertex_index") eqn:E2.
  { apply String.eqb_eq in E2. subst h. rewrite H2, Hraw. reflexivity. }
  destruct (String.eqb h "elevation") eqn:E3.
  { apply String.eqb_eq in E3. subst h. rewrite H3, Hraw. reflexivity. }
  destruct (String.eqb h "dam") eqn:E4.
  { apply String.eqb_eq in E4. subst h. rewrite H4, Hraw. reflexivity. }
  apply String.eqb_neq in E1, E2, E3, E4.
  unfold TransectElevations.parseLine.
  destruct (rawFields headers line !! "dam");
    rewrite ?lookup_insert_ne by congruence;
    rewrite lookup_fmap, Hraw; reflexivity.
Qed.

(** X8.  The same for the transect loader, whose numeric names are
    [transect_id], [vertex_index], [elevation] and [dam]: the field of
    a header is the trimmed text of the column under it, parsed for the
    numeric names ([dam] becomes [undefined] when it parses to [NaN])
    and kept as a string otherwise. *)
Theorem transect_record_field (headers : list string) (line : string) (j : nat) (h : string) :
  h ≠ "__proto__" →
  headers !! j = Some h →
  (∀ (k : nat) h', (j < k)%nat → headers !! k = Some h' → h' ≠ h) →
  let text := match split "," line !! j with Some c => trim c | None => "" end in
  TransectElevations.parseLine headers line !! h
  = Some (if String.eqb h "transect_id" then VNumber (parseInt text)
          else if String.eqb h "vertex_index" then VNumber (parseInt text)
          else if String.eqb h "elevation" then VNumber (parseFloat text)
          else if String.eqb h "dam" then
            (if isNaN (parseFloat text) then VUndefined else VNumber (parseFloat text))
          else VString text).
Proof.
  exact (transect_field_of_header headers line j h).
Qed.

Lemma transect_record_field_witness :
  "dam" ≠ "__proto__"
  ∧ ["transect_id"; "vertex_index"; "elevation"; "dam"] !! 3%nat = Some "dam"
  ∧ TransectElevations.parseLine ["transect_id"; "vertex_index"; "elevation"; "dam"]
      "4,2,10.5, 11.25 " !! "dam"
    = Some (VNumber (Fin (45 # 4))).
Proof.
  assert (H1 : "dam" ≠ "__proto__") by discriminate.
  assert (H2 : ["transect_id"; "vertex_index"; "elevation"; "dam"] !! 3%nat = Some "dam")
    by reflexivity.
  assert (H3 : ∀ (k : nat) h', (3 < k)%nat →
                 ["transect_id"; "vertex_index"; "elevation"; "dam"] !! k = Some h' → h' ≠ "dam").
  { intros [|[|[|[|k]]]] h' Hk Hl; try lia. discriminate. }
  exact (conj H1 (conj H2
           (transect_record_field ["transect_id"; "vertex_index"; "elevation"; "dam"]
              "4,2,10.5, 11.25 " 3 "dam" H1 H2 H3))).
Defined.

(** X9.  A data line with fewer columns than the header: the fields of the
    missing columns are read from the empty text, so the numeric ones
    are [NaN] and [dam] is [undefined]. *)
Theorem short_line_fields (headers : list string) (line : string) (j : nat) (h : string) :
  headers !! j = Some h →
  (∀ (k : nat) h', (j < k)%nat → headers !! k = Some h' → h' ≠ h) →
  (List.length (split "," line) <= j)%nat →
  In h ["transect_id"; "vertex_index"; "elevation"; "dam"] →
  TransectElevations.parseLine headers line !! h
  = Some (if String.eqb h "dam" then VUndefined else VNumber NaN).
Proof.
  intros Hj Hlast Hshort Hin.
  assert (Hproto : h ≠ "__proto__").
  { intros ->. simpl in Hin. intuition discriminate. }
  rewrite (transect_field_of_header headers line j h Hproto Hj Hlast).
  rewrite (lookup_ge_None_2 _ _ Hshort).
  simpl in Hin. destruct Hin as [<-|[<-|[<-|[<-|[]]]]]; reflexivity.
Qed.

Lemma short_line_fields_witness :
  ["transect_id"; "vertex_index"; "elevation"; "dam"] !! 2%nat = Some "elevation"
  ∧ (List.length (split "," "4,2") <= 2)%nat
  ∧ TransectElevations.parseLine ["transect_id"; "vertex_index"; "elevation"; "dam"] "4,2"
      !! "elevation" = Some (VNumber NaN).
Proof.
  assert (H1 : ["transect_id"; "vertex_index"; "elevation"; "dam"] !! 2%nat = Some "elevation")
    by reflexivity.
  assert (H2 : ∀ (k : nat) h', (2 < k)%nat →
                 ["transect_id"; "vertex_index"; "elevation"; "dam"] !! k = Some h'
                 → h' ≠ "elevation").
  { intros [|[|[|[|[|k]]]]] h' Hk Hl; try lia; try discriminate.
    injection Hl as <-. discriminate. }
  assert (H3 : (List.length (split "," "4,2") <= 2)%nat) by (vm_compute; lia).
  assert (H4 : In "elevation" ["transect_id"; "vertex_index"; "elevation"; "dam"])
    by (right; right; left; reflexivity).
  exact (conj H1 (conj H3
           (short_line_fields ["transect_id"; "vertex_index"; "elevation"; "dam"] "4,2"
              2 "elevation" H1 H2 H3 H4))).
Defined.
End RecordFacts.

(** ** The rows of a response *)

Module ResponseFacts.
Import JsNumber JsString JsGlobal JsObject Csv Spec TransectElevations EndpointFacts.
Open Scope string_scope.

Lemma filter_sublist {A : Type} (f : A → bool) (l : list A) : sublist (List.filter f l) l.
Proof.
  induction l as [|x l IH]; simpl; [constructor|].
  destruct (f x); [apply sublist_skip | apply sublist_cons]; exact IH.
Qed.

(** X10.  Whatever the request, when the file was read the endpoint answers
    with status 200, and the rows of the answer are rows of the file,
    in the order of the file. *)
Theorem GET_rows_from_file (content : string) (req : NextRequest) :
  ∃ rows, GET (inl content) req = Json rows ∧ sublist rows (parseCsv content).
Proof.
  unfold GET.
  destruct (searchParams_get "transect_id" (searchParams req)) as [s|].
  - destruct (truthy s).
    + eexists. split; [reflexivity | apply filter_sublist].
    + eexists. split; [reflexivity | reflexivity].
  - eexists. split; [reflexivity | reflexivity].
Qed.

(** X11.  With a query value that is not empty the answer holds exactly the
    rows whose [transect_id] is strictly equal to the parsed value; a
    row whose [transect_id] is [NaN] is never among them, and a value
    that does not start with an integer selects no row at all. *)
Theorem GET_selects_matching_rows (content : string) (req : NextRequest) (s : string) :
  searchParams_get "transect_id" (searchParams req) = Some s →
  truthy s = true →
  ∃ rows,
    GET (inl content) req = Json rows
    ∧ (∀ d, In d rows ↔
            In d (parseCsv content)
            ∧ ∃ n, get d "transect_id" = VNumber n ∧ strict_eq n (parseInt s) = true)
    ∧ (∀ d, In d rows → get d "transect_id" ≠ VNumber NaN)
    ∧ (¬ Spec.integerText s → rows = []).
Proof.
  intros Hs Ht. rewrite (GET_filtered content req s Hs Ht). eexists. split; [reflexivity|].
  assert (Hiff : ∀ d, In d (List.filter
                   (λ d, value_strict_eq (get d "transect_id") (parseInt s)) (parseCsv content))
                 ↔ In d (parseCsv content)
                   ∧ ∃ n, get d "transect_id" = VNumber n ∧ strict_eq n (parseInt s) = true).
  { intros d. rewrite List.filter_In. split; intros [Hin Hm]; (split; [exact Hin|]).
    - destruct (get d "transect_id") as [| |n]; simpl in Hm; try discriminate. eauto.
    - destruct Hm as (n & -> & Hn). exact Hn. }
  split; [exact Hiff|]. split.
  - intros d Hd Hnan. apply Hiff in Hd as (_ & n & Hn & Heq).
    rewrite Hnan in Hn. injection Hn as <-. discriminate.
  - intros Hnon. apply filter_none, Forall_forall. intros d _.
    rewrite (CoercionFacts.parseInt_non_numeric s Hnon).
    destruct (get d "transect_id") as [| |[]]; reflexivity.
Qed.

(** A file with a row of transect 1 and a row of transect 2, queried
    for transect 2. *)
Lemma GET_selects_matching_rows_witness :
  let content :=
    "transect_id,vertex_index,elevation" ++ newline ++ "1,0,10.5" ++ newline ++ "2,0,9.0" in
  let req := {| searchParams := [("transect_id", "2")] |} in
  searchParams_get "transect_id" (searchParams req) = Some "2"
  ∧ truthy "2" = true
  ∧ ∃ rows, GET (inl content) req = Json rows
      ∧ (∀ d, In d rows ↔
              In d (parseCsv content)
              ∧ ∃ n, get d "transect_id" = VNumber n ∧ strict_eq n (parseInt "2") = true)
      ∧ (∀ d, In d rows → get d "transect_id" ≠ VNumber NaN)
      ∧ (¬ Spec.integerText "2" → rows = []).
Proof.
  intros content req.
  assert (H1 : searchParams_get "transect_id" (searchParams req) = Some "2") by reflexivity.
  assert (H2 : truthy "2" = true) by reflexivity.
  exact (conj H1 (conj H2 (GET_selects_matching_rows content req "2" H1 H2))).
Defined.
End ResponseFacts.

(** ** Monotonicity and range of the scalers *)

Module ScaleRangeFacts.
Import JsNumber Spec.
Open Scope Q_scope.

Lemma add_Fin (p q : Q) : add (Fin p) (Fin q) = Fin (Qred (p + q)).
Proof. reflexivity. Qed.

Lemma sub_Fin (p q : Q) : sub (Fin p) (Fin q) = Fin (Qred (p + Qred (- q))).
Proof. reflexivity. Qed.

Lemma mul_Fin (p q : Q) : mul (Fin p) (Fin q) = Fin (Qred (p * q)).
Proof. reflexivity. Qed.

Lemma div_Fin (p q : Q) : ¬ q == 0 → div (Fin p) (Fin q) = Fin (Qred (p / q)).
Proof.
  intros H. simpl. destruct (Qeq_bool q 0) eqn:E; [|reflexivity].
  apply Qeq_bool_iff in E. contradiction.
Qed.

(** The lateral x-scaler on a finite value: [52 + 13.4 x]. *)
Lemma lateral_xScale_value (p : Q) :
  ∃ r, LateralProfile.xScale (Fin p) = Fin r ∧ r == 52 + (67 # 5) * p.
Proof.
  unfold LateralProfile.xScale.
  change LateralProfile.minX with (Fin 0). change LateralProfile.maxX with (Fin 40).
  change (left LateralProfile.margin) with (Fin 52).
  change LateralProfile.innerW with (Fin 536).
  change (sub (Fin 40) (Fin 0)) with (Fin 40).
  rewrite sub_Fin, div_Fin by discriminate. rewrite mul_Fin, add_Fin.
  eexists. split; [reflexivity|]. rewrite !Qred_correct. field.
Qed.

(** The lateral y-scaler on a finite value: [142 - 6.5 y]. *)
Lemma lateral_yScale_value (p : Q) :
  ∃ r, LateralProfile.yScale (Fin p) = Fin r ∧ r == 142 - (13 # 2) * p.
Proof.
  unfold LateralProfile.yScale.
  change LateralProfile.minY with (Fin (-20)). change LateralProfile.maxY with (Fin 20).
  change (add (top LateralProfile.margin) LateralProfile.innerH) with (Fin 272).
  change LateralProfile.innerH with (Fin 260).
  change (sub (Fin 20) (Fin (-20))) with (Fin 40).
  rewrite sub_Fin, div_Fin by discriminate. rewrite mul_Fin. rewrite sub_Fin.
  eexists. split; [reflexivity|]. rewrite !Qred_correct. field.
Qed.

(** X12.  The lateral scalers keep the order of the values of the
    domain and draw them inside the plot area: for [p <= q] in
    [[0, 40]] the pixels satisfy [52 <= x p <= x q <= 588], and for
    [p <= q] in [[-20, 20]] they satisfy [12 <= y q <= y p <= 272] (a
    higher elevation is drawn higher); the ends of the domains go to
    the edges of the plot area, also when evaluated on binary64
    numbers. *)
Theorem lateral_scales_monotone (p q : Q) :
  (0 <= p → p <= q → q <= 40 →
   ∃ xp xq, LateralProfile.xScale (Fin p) = Fin xp ∧ LateralProfile.xScale (Fin q) = Fin xq
            ∧ 52 <= xp ∧ xp <= xq ∧ xq <= 588)
  ∧ (-20 <= p → p <= q → q <= 20 →
     ∃ yp yq, LateralProfile.yScale (Fin p) = Fin yp ∧ LateralProfile.yScale (Fin q) = Fin yq
              ∧ 12 <= yq ∧ yq <= yp ∧ yp <= 272)
  ∧ LateralProfile.xScale (Fin 0) = Fin 52
  ∧ LateralProfile.xScale (Fin 40) = Fin 588
  ∧ LateralProfile.yScale (Fin (-20)) = Fin 272
  ∧ LateralProfile.yScale (Fin 20) = Fin 12
  ∧ Binary64.LateralProfile.xScale 0 = 52%float
  ∧ Binary64.LateralProfile.xScale 40 = 588%float
  ∧ Binary64.LateralProfile.yScale (-20) = 272%float
  ∧ Binary64.LateralProfile.yScale 20 = 12%float.
Proof.
  destruct (lateral_xScale_value p) as (xp & Hxp & Exp).
  destruct (lateral_xScale_value q) as (xq & Hxq & Exq).
  destruct (lateral_yScale_value p) as (yp & Hyp & Eyp).
  destruct (lateral_yScale_value q) as (yq & Hyq & Eyq).
  split; [|split; [|repeat split; reflexivity]].
  - intros H1 H2 H3. exists xp, xq.
    split; [exact Hxp|]. split; [exact Hxq|]. repeat split; lra.
  - intros H1 H2 H3. exists yp, yq.
    split; [exact Hyp|]. split; [exact Hyq|]. repeat split; lra.
Qed.

(** The values 10 and 30. *)
Lemma lateral_scales_monotone_witness :
  0 <= 10 ∧ 10 <= 30 ∧ 30 <= 40
  ∧ ∃ xp xq, LateralProfile.xScale (Fin 10) = Fin xp ∧ LateralProfile.xScale (Fin 30) = Fin xq
             ∧ 52 <= xp ∧ xp <= xq ∧ xq <= 588.
Proof.
  assert (H1 : 0 <= 10) by discriminate.
  assert (H2 : 10 <= 30) by discriminate.
  assert (H3 : 30 <= 40) by discriminate.
  exact (conj H1 (conj H2 (conj H3 (proj1 (lateral_scales_monotone 10 30) H1 H2 H3)))).
Defined.
End ScaleRangeFacts.

Module ExtentFacts.
Import JsNumber JsCompare LongitudinalData Spec ScaleRangeFacts.
Open Scope Q_scope.








End ExtentFacts.

(** ** The extent of the longitudinal profile *)

Module PlotFacts.
Import JsNumber JsCompare LongitudinalData Spec ScaleRangeFacts ExtentFacts.
Open Scope Q_scope.




End PlotFacts.

(** ** The area path of the longitudinal profile *)

Module PathFacts.
Import JsNumber JsCompare JsArray LongitudinalData LongitudinalPath Spec ScaleRangeFacts ExtentFacts PlotFacts.
Open Scope Q_scope.













End PathFacts.

(** ** Read failures *)

Module FailureFacts.
Import JsString JsObject Csv.
Open Scope string_scope.


End FailureFacts.
